(** * Lease / payment lifecycle of the rental-management backend

    A shallow embedding of the lease routes ([routes/leases.js]), the payment
    routes ([routes/payments.js]) and the Mongoose schemas they rely on
    ([models/Lease.js], [models/Payment.js], [models/Property.js]).

    Modelling conventions.
    - A MongoDB collection is a finite map from document ids to documents
      ([gmap nat _]); [Model.findById] is the lookup, [doc.save()] of a new
      document inserts it under a fresh id, [doc.save()] of a loaded
      document overwrites its entry.
    - A JavaScript [Date] is its time value: the number of milliseconds
      since the epoch, an integer.  [JsDate] has the ECMAScript abstract
      operations [MakeDay], [MakeDate], [YearFromTime], [MonthFromTime]
      and [DateFromTime] and the field arithmetic of [setDate],
      [setMonth] and [getMonth] on a local time value; [Zone] is the
      offset between UTC and local time, and [Zoned] has the [Date]
      methods of a server in a given zone.  The routes are modelled for a
      server whose zone is UTC, where the two coincide; the schedule of
      due dates, the virtuals and the queries of the last part of the
      definitions take the zone as a parameter.
    - Numbers (amounts, days) are integers; a field that may be
      [undefined] or [null] is an [option].
    - Every [new Date()] of one request reads the same instant [now].
    - A route returns the new database together with the HTTP response. *)

From stdpp Require Import gmap strings list fin_maps sorting.
From Stdlib Require Import ZArith Lia DecimalString.

Open Scope Z_scope.

(** ** JavaScript dates *)

Module JsDate.

Definition msPerDay : Z := 86400000.

Definition Day (t : Z) : Z := t / msPerDay.
Definition TimeWithinDay (t : Z) : Z := t mod msPerDay.

Definition InLeapYear (y : Z) : bool :=
  if negb (y mod 4 =? 0) then false
  else if negb (y mod 100 =? 0) then true
  else if negb (y mod 400 =? 0) then false
  else true.

Definition DaysInYear (y : Z) : Z := if InLeapYear y then 366 else 365.

(** Day number of the first day of year [y]. *)
Definition DayFromYear (y : Z) : Z :=
  365 * (y - 1970) + (y - 1969) / 4 - (y - 1901) / 100 + (y - 1601) / 400.

(** The largest year whose first day is not after day [d]: an estimate
    from the mean length of a year, corrected by at most one. *)
Definition YearFromDay (d : Z) : Z :=
  let y0 := 1970 + (400 * d) / 146097 in
  if d <? DayFromYear y0 then y0 - 1
  else if DayFromYear (y0 + 1) <=? d then y0 + 1
  else y0.

(** Days of the year before month [m] (0 = January). *)
Definition DaysBeforeMonth (leap : bool) (m : Z) : Z :=
  let l := if leap then 1 else 0 in
  if m <=? 0 then 0
  else if m =? 1 then 31
  else if m =? 2 then 59 + l
  else if m =? 3 then 90 + l
  else if m =? 4 then 120 + l
  else if m =? 5 then 151 + l
  else if m =? 6 then 181 + l
  else if m =? 7 then 212 + l
  else if m =? 8 then 243 + l
  else if m =? 9 then 273 + l
  else if m =? 10 then 304 + l
  else if m =? 11 then 334 + l
  else 365 + l.

Definition DaysInMonth (leap : bool) (m : Z) : Z :=
  DaysBeforeMonth leap (m + 1) - DaysBeforeMonth leap m.

Definition MonthFromDayInYear (leap : bool) (n : Z) : Z :=
  if n <? DaysBeforeMonth leap 1 then 0
  else if n <? DaysBeforeMonth leap 2 then 1
  else if n <? DaysBeforeMonth leap 3 then 2
  else if n <? DaysBeforeMonth leap 4 then 3
  else if n <? DaysBeforeMonth leap 5 then 4
  else if n <? DaysBeforeMonth leap 6 then 5
  else if n <? DaysBeforeMonth leap 7 then 6
  else if n <? DaysBeforeMonth leap 8 then 7
  else if n <? DaysBeforeMonth leap 9 then 8
  else if n <? DaysBeforeMonth leap 10 then 9
  else if n <? DaysBeforeMonth leap 11 then 10
  else 11.

Definition YearFromTime (t : Z) : Z := YearFromDay (Day t).

Definition DayWithinYear (t : Z) : Z := Day t - DayFromYear (YearFromTime t).

Definition MonthFromTime (t : Z) : Z :=
  MonthFromDayInYear (InLeapYear (YearFromTime t)) (DayWithinYear t).

Definition DateFromTime (t : Z) : Z :=
  DayWithinYear t
  - DaysBeforeMonth (InLeapYear (YearFromTime t)) (MonthFromTime t) + 1.

(** [MakeDay]: months outside 0..11 carry into the year, and a day of the
    month outside the month carries into the neighbouring months. *)
Definition MakeDay (year month date : Z) : Z :=
  let ym := year + month / 12 in
  let mn := month mod 12 in
  DayFromYear ym + DaysBeforeMonth (InLeapYear ym) mn + date - 1.

Definition MakeDate (day time : Z) : Z := day * msPerDay + time.

(** [Date.prototype.getMonth], [setDate] and [setMonth] on a local time
    value [t]: the methods of a [Date] when local time is UTC. *)
Definition getMonth (t : Z) : Z := MonthFromTime t.

Definition setDate (t dt : Z) : Z :=
  MakeDate (MakeDay (YearFromTime t) (MonthFromTime t) dt) (TimeWithinDay t).

Definition setMonth (t m : Z) : Z :=
  MakeDate (MakeDay (YearFromTime t) m (DateFromTime t)) (TimeWithinDay t).

(** [Date.UTC(y, m, d)] with the month counted from 0, at midnight. *)
Definition utc (y m d : Z) : Z := MakeDate (MakeDay y m d) 0.

(** The calendar fields of a time value: year, month (0..11), day. *)
Definition civil (t : Z) : Z * Z * Z :=
  (YearFromTime t, MonthFromTime t, DateFromTime t).

(** [Math.ceil (a / b)] for an integer [a] and a positive integer [b]. *)
Definition ceil_div (a b : Z) : Z := - ((- a) / b).

End JsDate.

(** ** Time zones

    A zone gives the offset of local time from UTC, in milliseconds:
    [tza_utc] at a UTC time value (ECMAScript's [LocalTZA(t, true)]) and
    [tza_local] at a local time value ([LocalTZA(t, false)]).  With
    daylight saving the offset changes over the year. *)
Module Zone.
Record t := mk {
  tza_utc : Z -> Z;
  tza_local : Z -> Z
}.

(** [LocalTime] and [UTC] of ECMAScript. *)
Definition LocalTime (z : t) (u : Z) : Z := u + tza_utc z u.
Definition UTC (z : t) (l : Z) : Z := l - tza_local z l.

(** The zone that is always [c] milliseconds ahead of UTC. *)
Definition fixed (c : Z) : t := mk (fun _ => c) (fun _ => c).

(** The offset of the zone is [c] all the time: no daylight saving. *)
Definition constant (c : Z) (z : t) : Prop :=
  forall x, tza_utc z x = c /\ tza_local z x = c.

(** The offset never exceeds a day. *)
Definition bounded (z : t) : Prop :=
  forall x,
    - JsDate.msPerDay <= tza_utc z x <= JsDate.msPerDay
    /\ - JsDate.msPerDay <= tza_local z x <= JsDate.msPerDay.
End Zone.

(** [Date.prototype.getDate], [getMonth], [setDate], [setMonth] and
    [setHours(0, 0, 0, 0)] of a server in zone [z]: the fields are those
    of the local time, and the result is converted back. *)
Module Zoned.
Definition getDate (z : Zone.t) (t : Z) : Z :=
  JsDate.DateFromTime (Zone.LocalTime z t).

Definition getMonth (z : Zone.t) (t : Z) : Z :=
  JsDate.MonthFromTime (Zone.LocalTime z t).

Definition setDate (z : Zone.t) (t dt : Z) : Z :=
  Zone.UTC z (JsDate.setDate (Zone.LocalTime z t) dt).

Definition setMonth (z : Zone.t) (t m : Z) : Z :=
  Zone.UTC z (JsDate.setMonth (Zone.LocalTime z t) m).

Definition setHours0 (z : Zone.t) (t : Z) : Z :=
  Zone.UTC z (JsDate.MakeDate (JsDate.Day (Zone.LocalTime z t)) 0).
End Zoned.

(** ** JavaScript values *)

Open Scope string_scope.
Open Scope Z_scope.

(** [x || d] on a number that may be [undefined]: [0] is falsy. *)
Definition num_or (x : option Z) (d : Z) : Z :=
  match x with
  | Some v => if v =? 0 then d else v
  | None => d
  end.

(** [x || d] on a string that may be [undefined]: [''] is falsy. *)
Definition str_or (x : option string) (d : string) : string :=
  match x with
  | Some v => if String.eqb v "" then d else v
  | None => d
  end.

(** Truthiness of a string field that may be unset. *)
Definition truthy_str (x : option string) : bool :=
  match x with
  | Some v => negb (String.eqb v "")
  | None => false
  end.

(** [x + '_LATE'] where [x] may be [undefined]. *)
Definition concat_late (x : option string) : string :=
  match x with
  | Some v => v +:+ "_LATE"
  | None => "undefined_LATE"
  end.

(** A value is one of a schema's [enum] strings. *)
Definition in_enum (s : string) (l : list string) : bool :=
  existsb (String.eqb s) l.

(** Decimal rendering of an integer inside a template literal. *)
Definition show_Z (z : Z) : string := NilZero.string_of_int (Z.to_int z).

(** ** Documents

    The fields kept are those the lease and payment routes read or write;
    descriptive fields ([description], [attachments], [utilities],
    [documents], timestamps and the like) are left out.  A field the
    schema requires and every writer sets has its plain type. *)

Module Property.
(** [models/Property.js] *)
Record t := mk {
  rentAmount : Z;
  securityDeposit : Z;
  status : string;
  currentTenant : option nat;
  currentLease : option nat
}.
End Property.

Module User.
(** Modelled from the spec: [models/User.js] is not among the sources;
    a tenant is a user with role [tenant] holding the optional
    back-references [propertyId] and [leaseId]. *)
Record t := mk {
  role : string;
  propertyId : option nat;
  leaseId : option nat
}.
End User.

Module Lease.
(** [models/Lease.js] *)
Record t := mk {
  property : nat;
  tenant : nat;
  startDate : Z;
  endDate : Z;
  monthlyRent : Z;
  securityDeposit : Z;
  status : string;
  leaseTerms : option string;
  paymentDueDate : Z;
  lateFee_amount : Z;
  lateFee_gracePeriod : Z;
  petDeposit : Z
}.

Definition status_enum : list string :=
  ["active"; "expired"; "terminated"; "pending"; "renewed"].

(** The schema's validators: [required], [min], [max], [enum]. *)
Definition validate (l : t) : bool :=
  (0 <=? monthlyRent l) && (0 <=? securityDeposit l)
  && in_enum (status l) status_enum
  && truthy_str (leaseTerms l)
  && (1 <=? paymentDueDate l) && (paymentDueDate l <=? 31).

Definition set_status (s : string) (l : t) : t :=
  mk (property l) (tenant l) (startDate l) (endDate l) (monthlyRent l)
     (securityDeposit l) s (leaseTerms l) (paymentDueDate l)
     (lateFee_amount l) (lateFee_gracePeriod l) (petDeposit l).
End Lease.

Module Payment.
(** [models/Payment.js] *)
Record t := mk {
  lease : option nat;
  tenant : nat;
  property : nat;
  amount : Z;
  paymentType : string;
  paymentMethod : string;
  status : string;
  dueDate : Z;
  paidDate : option Z;
  lateFee : Z;
  transactionId : option string;
  receiptNumber : option string;
  notes : string;
  isRecurring : bool;
  recurringPeriod : option string
}.

Definition paymentType_enum : list string :=
  ["rent"; "security_deposit"; "late_fee"; "pet_deposit"; "utility";
   "maintenance"; "other"].
Definition paymentMethod_enum : list string :=
  ["cash"; "check"; "bank_transfer"; "credit_card"; "online"; "other"].
Definition status_enum : list string :=
  ["pending"; "completed"; "failed"; "refunded"; "partial"].
Definition recurringPeriod_enum : list string :=
  ["monthly"; "quarterly"; "yearly"].

(** The schema's validators. *)
Definition validate (p : t) : bool :=
  (0 <=? amount p)
  && in_enum (paymentType p) paymentType_enum
  && in_enum (paymentMethod p) paymentMethod_enum
  && in_enum (status p) status_enum
  && match recurringPeriod p with
     | Some r => in_enum r recurringPeriod_enum
     | None => true
     end.

(** [paymentSchema.pre('save')]: a receipt number is generated when the
    document has none and its status is [completed].  [now] is
    [Date.now()] and [rnd] the nine characters drawn from
    [Math.random()]. *)
Definition pre_save (now : Z) (rnd : string) (p : t) : t :=
  if negb (truthy_str (receiptNumber p)) && String.eqb (status p) "completed"
  then mk (lease p) (tenant p) (property p) (amount p) (paymentType p)
          (paymentMethod p) (status p) (dueDate p) (paidDate p) (lateFee p)
          (transactionId p)
          (Some ("RCP-" +:+ show_Z now +:+ "-" +:+ rnd))
          (notes p) (isRecurring p) (recurringPeriod p)
  else p.
End Payment.

(** ** The database *)

Record DB := mkDB {
  properties : gmap nat Property.t;
  users : gmap nat User.t;
  leases : gmap nat Lease.t;
  payments : gmap nat Payment.t
}.

Definition empty_db : DB := mkDB ∅ ∅ ∅ ∅.

Definition set_properties (m : gmap nat Property.t) (db : DB) : DB :=
  mkDB m (users db) (leases db) (payments db).
Definition set_users (m : gmap nat User.t) (db : DB) : DB :=
  mkDB (properties db) m (leases db) (payments db).
Definition set_leases (m : gmap nat Lease.t) (db : DB) : DB :=
  mkDB (properties db) (users db) m (payments db).
Definition set_payments (m : gmap nat Payment.t) (db : DB) : DB :=
  mkDB (properties db) (users db) (leases db) m.

(** Some document of the collection satisfies the query. *)
Definition exists_doc {A} (q : nat -> A -> bool) (m : gmap nat A) : bool :=
  existsb (fun kv => q (fst kv) (snd kv)) (map_to_list m).

(** [Model.findById(id)] where [id] may be [undefined]. *)
Definition findById {A} (m : gmap nat A) (id : option nat) : option A :=
  match id with
  | Some k => m !! k
  | None => None
  end.

(** The identifier that [new Model(...)] gives a document. *)
Definition new_id {A} (m : gmap nat A) : nat := fresh (dom m).

(** The two [unique, sparse] indexes of the payment collection: a write
    of document [id] is refused when another document already holds the
    same [transactionId] or the same [receiptNumber]. *)
Definition same_key (x y : option string) : bool :=
  match x, y with
  | Some a, Some b => String.eqb a b
  | _, _ => false
  end.

Definition unique_ok (id : nat) (p : Payment.t) (m : gmap nat Payment.t) : bool :=
  negb (exists_doc
          (fun k q =>
             negb (Nat.eqb k id)
             && (same_key (Payment.transactionId q) (Payment.transactionId p)
                 || same_key (Payment.receiptNumber q) (Payment.receiptNumber p)))
          m).

(** [doc.save()]: validation, then the [pre('save')] hook, then the write
    under the unique indexes.  [None] stands for a rejected promise. *)
Definition save_payment (now : Z) (rnd : string) (id : nat) (p : Payment.t)
    (m : gmap nat Payment.t) : option (gmap nat Payment.t) :=
  if Payment.validate p then
    let p' := Payment.pre_save now rnd p in
    if unique_ok id p' m then Some (<[id := p']> m) else None
  else None.

(** [Payment.insertMany(docs)]: every document is validated first and
    nothing is written when one of them is invalid; [save] middleware
    does not run.  The documents are written in order. *)
Fixpoint insert_all (ps : list Payment.t) (m : gmap nat Payment.t)
    : option (gmap nat Payment.t) :=
  match ps with
  | [] => Some m
  | p :: rest =>
      let id := new_id m in
      if unique_ok id p m then insert_all rest (<[id := p]> m) else None
  end.

Definition insertMany (ps : list Payment.t) (m : gmap nat Payment.t)
    : option (gmap nat Payment.t) :=
  if forallb Payment.validate ps then insert_all ps m else None.

(** ** HTTP responses *)

Record Response := mkResponse {
  code : Z;
  message : string;
  lateFeeApplied : option Z
}.

Definition respond (c : Z) (msg : string) : Response := mkResponse c msg None.

Module Property_schema.
Definition status_enum : list string :=
  ["available"; "occupied"; "maintenance"; "unavailable"].

Definition validate (p : Property.t) : bool :=
  (0 <=? Property.rentAmount p) && (0 <=? Property.securityDeposit p)
  && in_enum (Property.status p) status_enum.
End Property_schema.

(** ** Lease routes ([routes/leases.js]) *)

Module LeaseReq.
(** The [lateFee] object of a request body. *)
Record lateFee_t := mkLateFee {
  amount : option Z;
  gracePeriod : option Z
}.

(** The body of [POST /api/leases]; the two dates are the values of
    [new Date(startDate)] and [new Date(endDate)]. *)
Record t := mk {
  propertyId : option nat;
  tenantId : option nat;
  startDate : Z;
  endDate : Z;
  monthlyRent : option Z;
  securityDeposit : option Z;
  leaseTerms : option string;
  paymentDueDate : option Z;
  lateFee : option lateFee_t;
  petDeposit : option Z
}.
End LeaseReq.

(** The query of the overlap check: an active or pending lease of the
    property that starts no later than the new lease ends and ends no
    earlier than it starts. *)
Definition overlaps (pid : nat) (s e : Z) (l : Lease.t) : bool :=
  Nat.eqb (Lease.property l) pid
  && in_enum (Lease.status l) ["active"; "pending"]
  && (Lease.startDate l <=? e) && (s <=? Lease.endDate l).

(** [leaseData] of the create route, for a property that was found. *)
Definition leaseData (req : LeaseReq.t) (pid tid : nat) (property : Property.t)
    : Lease.t :=
  Lease.mk pid tid (LeaseReq.startDate req) (LeaseReq.endDate req)
    (num_or (LeaseReq.monthlyRent req) (Property.rentAmount property))
    (num_or (LeaseReq.securityDeposit req) (Property.securityDeposit property))
    "pending"
    (LeaseReq.leaseTerms req)
    (num_or (LeaseReq.paymentDueDate req) 1)
    (match LeaseReq.lateFee req with
     | Some lf => default 0 (LeaseReq.amount lf)
     | None => 50
     end)
    (match LeaseReq.lateFee req with
     | Some lf => default 5 (LeaseReq.gracePeriod lf)
     | None => 5
     end)
    (num_or (LeaseReq.petDeposit req) 0).

(** The document that the loop of [createPaymentSchedule] builds for one
    due date. *)
Definition rent_payment (lid : nat) (lease : Lease.t) (due : Z) : Payment.t :=
  Payment.mk (Some lid) (Lease.tenant lease) (Lease.property lease)
    (Lease.monthlyRent lease) "rent" "pending" "pending" due None 0
    None None "" true (Some "monthly").

(** The first candidate due date: the due day put into the start month,
    moved one month on when it falls before the start. *)
Definition first_due (lease : Lease.t) : Z :=
  let startDate := Lease.startDate lease in
  let currentDate := JsDate.setDate startDate (Lease.paymentDueDate lease) in
  if currentDate <? startDate
  then JsDate.setMonth currentDate (JsDate.getMonth currentDate + 1)
  else currentDate.

(** The [while (currentDate <= endDate)] loop; [None] when the iteration
    bound runs out before the loop condition fails. *)
Fixpoint schedule_loop (fuel : nat) (currentDate endDate : Z) : option (list Z) :=
  match fuel with
  | O => None
  | S n =>
      if currentDate <=? endDate
      then option_map (cons currentDate)
             (schedule_loop n
                (JsDate.setMonth currentDate (JsDate.getMonth currentDate + 1))
                endDate)
      else Some []
  end.

(** Every turn of the loop moves the date on by at least 28 days, which
    bounds the number of turns. *)
Definition schedule_fuel (currentDate endDate : Z) : nat :=
  Z.to_nat ((endDate - currentDate) / (28 * JsDate.msPerDay)) + 2.

(** The due dates of the schedule, in the order they are pushed. *)
Definition schedule_dates (lease : Lease.t) : list Z :=
  default []
    (schedule_loop (schedule_fuel (first_due lease) (Lease.endDate lease))
       (first_due lease) (Lease.endDate lease)).

(** The array [payments] handed to [Payment.insertMany]. *)
Definition schedule (lid : nat) (lease : Lease.t) : list Payment.t :=
  map (rent_payment lid lease) (schedule_dates lease).

(** [createPaymentSchedule]: a rejected [insertMany] is caught and logged,
    and the function returns normally. *)
Definition createPaymentSchedule (lid : nat) (lease : Lease.t) (db : DB) : DB :=
  match insertMany (schedule lid lease) (payments db) with
  | Some m => set_payments m db
  | None => db
  end.

(** [POST /api/leases] *)
Definition create_lease (req : LeaseReq.t) (db : DB) : DB * Response :=
  match LeaseReq.propertyId req with
  | None => (db, respond 400 "Property not found")
  | Some pid =>
  match properties db !! pid with
  | None => (db, respond 400 "Property not found")
  | Some property =>
  match LeaseReq.tenantId req with
  | None => (db, respond 400 "Invalid tenant")
  | Some tid =>
  match users db !! tid with
  | None => (db, respond 400 "Invalid tenant")
  | Some tenant =>
  if negb (String.eqb (User.role tenant) "tenant")
  then (db, respond 400 "Invalid tenant")
  else if exists_doc
            (fun _ l => overlaps pid (LeaseReq.startDate req) (LeaseReq.endDate req) l)
            (leases db)
  then (db, respond 400 "Property has overlapping lease dates")
  else
    let lease := leaseData req pid tid property in
    if negb (Lease.validate lease)
    then (db, respond 500 "Server error creating lease")
    else
      let lid := new_id (leases db) in
      let db1 := set_leases (<[lid := lease]> (leases db)) db in
      let property' :=
        Property.mk (Property.rentAmount property)
          (Property.securityDeposit property) "occupied" (Some tid) (Some lid) in
      if negb (Property_schema.validate property')
      then (db1, respond 500 "Server error creating lease")
      else
        let db2 := set_properties (<[pid := property']> (properties db1)) db1 in
        let tenant' := User.mk (User.role tenant) (Some pid) (Some lid) in
        let db3 := set_users (<[tid := tenant']> (users db2)) db2 in
        let db4 := createPaymentSchedule lid lease db3 in
        (db4, respond 201 "Lease created successfully")
  end end end end.

(** [PUT /api/leases/:id/activate] *)
Definition activate (id : nat) (db : DB) : DB * Response :=
  match leases db !! id with
  | None => (db, respond 404 "Lease not found")
  | Some lease =>
      let lease' := Lease.set_status "active" lease in
      if negb (Lease.validate lease')
      then (db, respond 500 "Server error activating lease")
      else (set_leases (<[id := lease']> (leases db)) db,
            respond 200 "Lease activated successfully")
  end.

Definition clear_property (p : Property.t) : Property.t :=
  Property.mk (Property.rentAmount p) (Property.securityDeposit p)
    "available" None None.

Definition clear_tenant (u : User.t) : User.t :=
  User.mk (User.role u) None None.

(** [PUT /api/leases/:id/terminate]; [findByIdAndUpdate] changes the
    document when there is one and does nothing otherwise. *)
Definition terminate (id : nat) (db : DB) : DB * Response :=
  match leases db !! id with
  | None => (db, respond 404 "Lease not found")
  | Some lease =>
      let lease' := Lease.set_status "terminated" lease in
      if negb (Lease.validate lease')
      then (db, respond 500 "Server error terminating lease")
      else
        let db1 := set_leases (<[id := lease']> (leases db)) db in
        let db2 :=
          set_properties
            (alter clear_property (Lease.property lease) (properties db1)) db1 in
        let db3 :=
          set_users (alter clear_tenant (Lease.tenant lease) (users db2)) db2 in
        (db3, respond 200 "Lease terminated successfully")
  end.

(** [DELETE /api/leases/:id] *)
Definition delete_lease (id : nat) (db : DB) : DB * Response :=
  match leases db !! id with
  | None => (db, respond 404 "Lease not found")
  | Some lease =>
      let db1 :=
        set_properties
          (alter clear_property (Lease.property lease) (properties db)) db in
      let db2 :=
        set_users (alter clear_tenant (Lease.tenant lease) (users db1)) db1 in
      let db3 :=
        set_payments
          (filter (fun kv => Payment.lease (snd kv) <> Some id) (payments db2))
          db2 in
      (set_leases (delete id (leases db3)) db3,
       respond 200 "Lease deleted successfully")
  end.

(** ** Payment routes ([routes/payments.js]) *)

Module PaymentReq.
(** The body of [POST /api/payments]; [dueDate] and [paidDate] are the
    values of [new Date(dueDate)] and [new Date(paidDate)]. *)
Record t := mk {
  leaseId : option nat;
  propertyId : option nat;
  tenantId : option nat;
  amount : option Z;
  paymentType : option string;
  paymentMethod : option string;
  dueDate : Z;
  paidDate : option Z;
  status : option string
}.
End PaymentReq.

Module PayReq.
(** The body of [PUT /api/payments/:id/pay]. *)
Record t := mk {
  paymentMethod : option string;
  transactionId : option string;
  notes : option string;
  paidAmount : option Z
}.
End PayReq.

(** [new Payment(paymentData)] of the create route once the tenant and the
    property are known; a required path left [undefined] makes [save]
    reject, which is [None] here. *)
Definition paymentData (req : PaymentReq.t) (lease : option nat) (tid pid : nat)
    : option Payment.t :=
  match PaymentReq.amount req, PaymentReq.paymentType req,
        PaymentReq.paymentMethod req with
  | Some a, Some ty, Some pm =>
      Some (Payment.mk lease tid pid a ty pm
              (default "pending" (PaymentReq.status req))
              (PaymentReq.dueDate req)
              (PaymentReq.paidDate req)
              0 None None "" false None)
  | _, _, _ => None
  end.

Definition store_new_payment (now : Z) (rnd : string) (p : option Payment.t)
    (db : DB) : DB * Response :=
  match p with
  | None => (db, respond 500 "Server error creating payment")
  | Some p =>
      match save_payment now rnd (new_id (payments db)) p (payments db) with
      | None => (db, respond 500 "Server error creating payment")
      | Some m =>
          (set_payments m db, respond 201 "Payment record created successfully")
      end
  end.

(** [POST /api/payments] *)
Definition create_payment (now : Z) (rnd : string) (req : PaymentReq.t) (db : DB)
    : DB * Response :=
  match PaymentReq.leaseId req with
  | Some lid =>
      match leases db !! lid with
      | None => (db, respond 400 "Lease not found")
      | Some lease =>
          store_new_payment now rnd
            (paymentData req (Some lid) (Lease.tenant lease) (Lease.property lease))
            db
      end
  | None =>
      match PaymentReq.propertyId req, PaymentReq.tenantId req with
      | Some pid, Some tid =>
          store_new_payment now rnd (paymentData req None tid pid) db
      | _, _ => (db, respond 400 "propertyId and tenantId required")
      end
  end.

(** The late fee of a settlement at [now]: the lease's fee when the
    payment is late by more days than the grace period, [0] otherwise
    and when the payment has no lease. *)
Definition late_fee (now : Z) (payment : Payment.t) (db : DB) : Z :=
  if Payment.dueDate payment <? now then
    match findById (leases db) (Payment.lease payment) with
    | Some lease =>
        let daysLate :=
          JsDate.ceil_div (now - Payment.dueDate payment) JsDate.msPerDay in
        if Lease.lateFee_gracePeriod lease <? daysLate
        then Lease.lateFee_amount lease
        else 0
    | None => 0
    end
  else 0.

(** The payment after the assignments of the pay route. *)
Definition settled (now : Z) (pm : string) (req : PayReq.t) (fee : Z)
    (payment : Payment.t) : Payment.t :=
  Payment.mk (Payment.lease payment) (Payment.tenant payment)
    (Payment.property payment)
    (num_or (PayReq.paidAmount req) (Payment.amount payment))
    (Payment.paymentType payment) pm "completed" (Payment.dueDate payment)
    (Some now) fee (PayReq.transactionId req) (Payment.receiptNumber payment)
    (str_or (PayReq.notes req) "") (Payment.isRecurring payment)
    (Payment.recurringPeriod payment).

(** The synthetic late-fee document of the pay route. *)
Definition lateFeePayment (now : Z) (pm : string) (req : PayReq.t) (fee : Z)
    (payment : Payment.t) : Payment.t :=
  Payment.mk (Payment.lease payment) (Payment.tenant payment)
    (Payment.property payment) fee "late_fee" pm "completed" now (Some now) 0
    (Some (concat_late (PayReq.transactionId req))) None "" false None.

(** [PUT /api/payments/:id/pay]; [rnd1] and [rnd2] are the random parts of
    the receipt numbers that the two [save] calls may generate. *)
Definition pay (now : Z) (rnd1 rnd2 : string) (id : nat) (req : PayReq.t)
    (db : DB) : DB * Response :=
  match payments db !! id with
  | None => (db, respond 404 "Payment not found")
  | Some payment =>
      let fee := late_fee now payment db in
      match PayReq.paymentMethod req with
      | None => (db, respond 500 "Server error processing payment")
      | Some pm =>
          match save_payment now rnd1 id (settled now pm req fee payment)
                  (payments db) with
          | None => (db, respond 500 "Server error processing payment")
          | Some m1 =>
              let db1 := set_payments m1 db in
              if 0 <? fee then
                match save_payment now rnd2 (new_id m1)
                        (lateFeePayment now pm req fee payment) m1 with
                | None => (db1, respond 500 "Server error processing payment")
                | Some m2 =>
                    (set_payments m2 db1,
                     mkResponse 200 "Payment marked as paid successfully"
                       (Some fee))
                end
              else
                (db1,
                 mkResponse 200 "Payment marked as paid successfully" (Some fee))
          end
      end
  end.

(** A payment with its status replaced. *)
Definition with_status (s : string) (p : Payment.t) : Payment.t :=
  Payment.mk (Payment.lease p) (Payment.tenant p) (Payment.property p)
    (Payment.amount p) (Payment.paymentType p) (Payment.paymentMethod p) s
    (Payment.dueDate p) (Payment.paidDate p) (Payment.lateFee p)
    (Payment.transactionId p) (Payment.receiptNumber p) (Payment.notes p)
    (Payment.isRecurring p) (Payment.recurringPeriod p).

(** [DELETE /api/payments/:id] *)
Definition delete_payment (id : nat) (db : DB) : DB * Response :=
  match payments db !! id with
  | None => (db, respond 404 "Payment not found")
  | Some _ =>
      (set_payments (delete id (payments db)) db,
       respond 200 "Payment deleted successfully")
  end.

(** ** Requests as a transition system *)

Inductive request :=
| CreateLease (req : LeaseReq.t)
| Activate (id : nat)
| Terminate (id : nat)
| DeleteLease (id : nat)
| CreatePayment (now : Z) (rnd : string) (req : PaymentReq.t)
| Pay (now : Z) (rnd1 rnd2 : string) (id : nat) (req : PayReq.t)
| DeletePayment (id : nat).

Definition handle (r : request) (db : DB) : DB * Response :=
  match r with
  | CreateLease req => create_lease req db
  | Activate id => activate id db
  | Terminate id => terminate id db
  | DeleteLease id => delete_lease id db
  | CreatePayment now rnd req => create_payment now rnd req db
  | Pay now rnd1 rnd2 id req => pay now rnd1 rnd2 id req db
  | DeletePayment id => delete_payment id db
  end.

(** The database after a sequence of requests. *)
Definition run (rs : list request) (db : DB) : DB :=
  fold_left (fun d r => fst (handle r d)) rs db.

(** The responses a sequence of requests receives, in order. *)
Fixpoint responses (rs : list request) (db : DB) : list Z :=
  match rs with
  | [] => []
  | r :: rest => code (snd (handle r db)) :: responses rest (fst (handle r db))
  end.

(** ** Properties of the stored data *)

(** A lease that blocks its property: status [active] or [pending]. *)
Definition open_lease (l : Lease.t) : Prop :=
  Lease.status l = "active" \/ Lease.status l = "pending".

(** The interval test of the overlap check, on two stored leases. *)
Definition intervals_meet (a b : Lease.t) : Prop :=
  Lease.startDate a <= Lease.endDate b /\ Lease.startDate b <= Lease.endDate a.

(** No two open leases of one property have meeting intervals. *)
Definition no_overlap (m : gmap nat Lease.t) : Prop :=
  forall i j a b,
    i <> j -> m !! i = Some a -> m !! j = Some b ->
    Lease.property a = Lease.property b ->
    open_lease a -> open_lease b -> ~ intervals_meet a b.

(** The checks of the create route that come before the lease is built:
    the property exists, the tenant exists with role [tenant], and no
    open lease of the property meets the requested interval. *)
Definition admissible (req : LeaseReq.t) (db : DB) (pid tid : nat)
    (property : Property.t) (tenant : User.t) : Prop :=
  LeaseReq.propertyId req = Some pid
  /\ properties db !! pid = Some property
  /\ LeaseReq.tenantId req = Some tid
  /\ users db !! tid = Some tenant
  /\ User.role tenant = "tenant"
  /\ exists_doc
       (fun _ l => overlaps pid (LeaseReq.startDate req) (LeaseReq.endDate req) l)
       (leases db) = false.

(** The database a successful create leaves, before the schedule step. *)
Definition with_lease (req : LeaseReq.t) (db : DB) (pid tid : nat)
    (property : Property.t) (tenant : User.t) : DB :=
  let lid := new_id (leases db) in
  mkDB
    (<[pid := Property.mk (Property.rentAmount property)
                (Property.securityDeposit property) "occupied"
                (Some tid) (Some lid)]> (properties db))
    (<[tid := User.mk (User.role tenant) (Some pid) (Some lid)]> (users db))
    (<[lid := leaseData req pid tid property]> (leases db))
    (payments db).

(** Receipt numbers: no two payments share one, and a payment has one
    exactly when its status is [completed]. *)
Definition receipts_ok (m : gmap nat Payment.t) : Prop :=
  (forall i j p q,
      m !! i = Some p -> m !! j = Some q ->
      truthy_str (Payment.receiptNumber p) = true ->
      Payment.receiptNumber p = Payment.receiptNumber q -> i = j)
  /\ (forall i p,
         m !! i = Some p ->
         (truthy_str (Payment.receiptNumber p) = true
          <-> Payment.status p = "completed")).

(** Whole calendar months from [a] on: the time value [k] months after
    [a], with the day of the month and the time of day kept. *)
Definition add_months (a k : Z) : Z :=
  JsDate.MakeDate
    (JsDate.MakeDay (JsDate.YearFromTime a) (JsDate.MonthFromTime a + k)
       (JsDate.DateFromTime a))
    (JsDate.TimeWithinDay a).

(** ** Sample data *)

Module Sample.
Import JsDate.

Definition house : Property.t := Property.mk 1000 500 "available" None None.
Definition alice : User.t := User.mk "tenant" None None.
Definition bob : User.t := User.mk "tenant" None None.

(** One property (id 1) and two tenants (ids 1 and 2). *)
Definition db0 : DB :=
  mkDB (<[1%nat := house]> ∅)
       (<[2%nat := bob]> (<[1%nat := alice]> ∅)) ∅ ∅.

Definition lease_req (tid : nat) (s e : Z) (due : option Z) : LeaseReq.t :=
  LeaseReq.mk (Some 1%nat) (Some tid) s e (Some 1000) None
    (Some "12 months, no pets") due None None.

(** The lease of the specification's example: 2024-01-15 to 2024-06-15,
    due on the 1st, rent 1000. *)
Definition req_example : LeaseReq.t :=
  lease_req 1 (utc 2024 0 15) (utc 2024 5 15) (Some 1).
Definition lease_example : Lease.t := leaseData req_example 1 1 house.

(** The same lease with the rent due on the 31st. *)
Definition req_due31 : LeaseReq.t :=
  lease_req 1 (utc 2024 0 15) (utc 2024 5 15) (Some 31).
Definition lease_due31 : Lease.t := leaseData req_due31 1 1 house.

(** A lease from 2023-01-01 to 2023-03-02 with the rent due on the 31st. *)
Definition lease_short31 : Lease.t :=
  leaseData (lease_req 1 (utc 2023 0 1) (utc 2023 2 2) (Some 31)) 1 1 house.

(** A request whose end date lies before its start date. *)
Definition req_reversed : LeaseReq.t :=
  lease_req 1 (utc 2024 5 15) (utc 2024 0 15) (Some 1).

(** A second lease of the same property for the other tenant, from
    2024-03-01 to 2024-09-01. *)
Definition req_second : LeaseReq.t :=
  lease_req 2 (utc 2024 2 1) (utc 2024 8 1) (Some 1).

(** A lease whose late fee is 50 after 5 days, and one whose fee is 0. *)
Definition lease_fee (fee : Z) : Lease.t :=
  Lease.mk 1 1 (utc 2023 11 1) (utc 2024 10 30) 1000 500 "active"
    (Some "12 months, no pets") 1 fee 5 0.

(** Rent of 1000 due on 2024-01-01, not yet paid. *)
Definition rent_january : Payment.t :=
  Payment.mk (Some 0%nat) 1 1 1000 "rent" "cash" "pending" (utc 2024 0 1)
    None 0 None None "" false None.

Definition db_fee (fee : Z) : DB :=
  mkDB (<[1%nat := house]> ∅) (<[1%nat := alice]> ∅)
       (<[0%nat := lease_fee fee]> ∅) (<[0%nat := rent_january]> ∅).

Definition pay_req (txn : string) (paid : option Z) : PayReq.t :=
  PayReq.mk (Some "cash") (Some txn) None paid.

(** Settlement on 2024-01-10, nine days after the due date. *)
Definition jan10 : Z := utc 2024 0 10.
End Sample.


(** ** Further definitions *)

(** One month after month [m] of year [y]. *)
Definition next_year (y m : Z) : Z := if m =? 11 then y + 1 else y.
Definition next_month (m : Z) : Z := if m =? 11 then 0 else m + 1.

(** Months counted from year 0: the month after [month_index t] is
    [month_index t + 1], also across the end of a year. *)
Definition month_index (t : Z) : Z :=
  12 * JsDate.YearFromTime t + JsDate.MonthFromTime t.

(** Neighbouring elements are 28 to 31 days apart. *)
Fixpoint spaced (l : list Z) : Prop :=
  match l with
  | a :: (b :: _) as rest =>
      a + 28 * JsDate.msPerDay <= b <= a + 31 * JsDate.msPerDay /\ spaced rest
  | _ => True
  end.

(** [paymentSchema.virtual('isOverdue')] and [virtual('daysOverdue')],
    read at the instant [now]. *)
Definition isOverdue (now : Z) (p : Payment.t) : bool :=
  String.eqb (Payment.status p) "pending" && (Payment.dueDate p <? now).

Definition daysOverdue (now : Z) (p : Payment.t) : Z :=
  if negb (isOverdue now p) then 0
  else JsDate.ceil_div (now - Payment.dueDate p) JsDate.msPerDay.

(** [GET /api/payments/overdue/list]: the payments matched by
    [{status: 'pending', dueDate: {$lt: new Date()}}], sorted by due
    date. *)
Definition overdue_query (now : Z) (db : DB) : gmap nat Payment.t :=
  filter
    (fun kv =>
       Payment.status (snd kv) = "pending" /\ Payment.dueDate (snd kv) < now)
    (payments db).

Definition by_dueDate (a b : nat * Payment.t) : Prop :=
  Payment.dueDate (snd a) <= Payment.dueDate (snd b).

#[global] Instance by_dueDate_dec : RelDecision by_dueDate.
Proof. intros a b. unfold by_dueDate. apply _. Defined.

Definition overdue_list (now : Z) (db : DB) : list (nat * Payment.t) :=
  merge_sort by_dueDate (map_to_list (overdue_query now db)).

(** The virtuals of the lease schema, read at the instant [today];
    [sent] is [renewalNotice.sent]. *)
Definition durationMonths (l : Lease.t) : Z :=
  JsDate.ceil_div (Lease.endDate l - Lease.startDate l) (JsDate.msPerDay * 30).

Definition daysRemaining (today : Z) (l : Lease.t) : Z :=
  JsDate.ceil_div (Lease.endDate l - today) JsDate.msPerDay.

Definition isExpired (today : Z) (l : Lease.t) : bool :=
  Lease.endDate l <? today.

Definition isRenewalNoticeDue (z : Zone.t) (today : Z) (sent : bool)
    (l : Lease.t) : bool :=
  (Zoned.setDate z (Lease.endDate l) (Zoned.getDate z (Lease.endDate l) - 60)
   <=? today)
  && negb sent.

(** [GET /api/leases/expiring/soon?days=N]: the leases matched by
    [{status: 'active', endDate: {$lte: futureDate, $gte: new Date()}}]
    where [futureDate.setDate(futureDate.getDate() + days)]. *)
Definition expiring_soon (z : Zone.t) (now days : Z) (db : DB)
    : gmap nat Lease.t :=
  let futureDate := Zoned.setDate z now (Zoned.getDate z now + days) in
  filter
    (fun kv =>
       Lease.status (snd kv) = "active"
       /\ Lease.endDate (snd kv) <= futureDate /\ now <= Lease.endDate (snd kv))
    (leases db).

(** The month window of [GET /api/payments/stats/summary]:
    [currentMonth.setDate(1); currentMonth.setHours(0, 0, 0, 0)] and
    [nextMonth.setMonth(nextMonth.getMonth() + 1)]. *)
Definition currentMonth (z : Zone.t) (now : Z) : Z :=
  Zoned.setHours0 z (Zoned.setDate z now 1).

Definition nextMonth (z : Zone.t) (now : Z) : Z :=
  Zoned.setMonth z (currentMonth z now)
    (Zoned.getMonth z (currentMonth z now) + 1).

(** The [$match] stage of the monthly statistics. *)
Definition due_this_month (z : Zone.t) (now : Z) (db : DB)
    : gmap nat Payment.t :=
  filter
    (fun kv =>
       currentMonth z now <= Payment.dueDate (snd kv)
       /\ Payment.dueDate (snd kv) < nextMonth z now)
    (payments db).

(** The first instant of the calendar month of a local time value, and
    of the month after it. *)
Definition month_start (l : Z) : Z :=
  JsDate.MakeDate (JsDate.Day (JsDate.setDate l 1)) 0.

Definition month_end (l : Z) : Z :=
  JsDate.setMonth (month_start l) (JsDate.getMonth (month_start l) + 1).

(** [createPaymentSchedule] of a server in zone [z]: the first candidate
    due date, the loop and the due dates it pushes. *)
Definition first_due_in (z : Zone.t) (lease : Lease.t) : Z :=
  let startDate := Lease.startDate lease in
  let currentDate := Zoned.setDate z startDate (Lease.paymentDueDate lease) in
  if currentDate <? startDate
  then Zoned.setMonth z currentDate (Zoned.getMonth z currentDate + 1)
  else currentDate.

Fixpoint schedule_loop_in (z : Zone.t) (fuel : nat) (currentDate endDate : Z)
    : option (list Z) :=
  match fuel with
  | O => None
  | S n =>
      if currentDate <=? endDate
      then option_map (cons currentDate)
             (schedule_loop_in z n
                (Zoned.setMonth z currentDate (Zoned.getMonth z currentDate + 1))
                endDate)
      else Some []
  end.

(** A turn of the loop moves the local date on by at least 28 days, and
    the two conversions take at most a day each. *)
Definition schedule_fuel_in (currentDate endDate : Z) : nat :=
  Z.to_nat ((endDate - currentDate) / (26 * JsDate.msPerDay)) + 2.

Definition schedule_dates_in (z : Zone.t) (lease : Lease.t) : list Z :=
  default []
    (schedule_loop_in z
       (schedule_fuel_in (first_due_in z lease) (Lease.endDate lease))
       (first_due_in z lease) (Lease.endDate lease)).

(** The lease with its dates as local time values of a zone that is [c]
    milliseconds ahead of UTC. *)
Definition local_lease (c : Z) (l : Lease.t) : Lease.t :=
  Lease.mk (Lease.property l) (Lease.tenant l) (Lease.startDate l + c)
    (Lease.endDate l + c) (Lease.monthlyRent l) (Lease.securityDeposit l)
    (Lease.status l) (Lease.leaseTerms l) (Lease.paymentDueDate l)
    (Lease.lateFee_amount l) (Lease.lateFee_gracePeriod l) (Lease.petDeposit l).

(** Each element after the first is the one before it moved on by
    [setMonth(getMonth() + 1)]. *)
Definition stepped (z : Zone.t) (l : list Z) : Prop :=
  forall k a b,
    l !! k = Some a -> l !! S k = Some b ->
    b = Zoned.setMonth z a (Zoned.getMonth z a + 1).

(** Eastern Standard Time all year: five hours behind UTC. *)
Definition est : Zone.t := Zone.fixed (-18000000).

(** New York in 2024: five hours behind UTC, and four hours behind it
    from 2024-03-10 07:00 UTC until 2024-11-03 06:00 UTC.  A local time
    that the clocks skip or show twice is read with the offset before
    the change. *)
Definition new_york_2024 : Zone.t :=
  let standard := -18000000 in
  let daylight := -14400000 in
  let forward := JsDate.utc 2024 2 10 + 25200000 in
  let back := JsDate.utc 2024 10 3 + 21600000 in
  Zone.mk
    (fun u => if (forward <=? u) && (u <? back) then daylight else standard)
    (fun l =>
       if (forward + daylight <=? l) && (l <? back + daylight)
       then daylight else standard).

(** Newest due date first: [.sort({ dueDate: -1 })]. *)
Definition by_dueDate_desc (a b : nat * Payment.t) : Prop :=
  Payment.dueDate (snd b) <= Payment.dueDate (snd a).

#[global] Instance by_dueDate_desc_dec : RelDecision by_dueDate_desc.
Proof. intros a b. unfold by_dueDate_desc. apply _. Defined.

(** The payment history of [GET /api/leases/:id]:
    [Payment.find({ lease }).sort({ dueDate: -1 }).limit(12)]. *)
Definition lease_history (id : nat) (db : DB) : list (nat * Payment.t) :=
  take 12
    (merge_sort by_dueDate_desc
       (map_to_list
          (filter (fun kv => Payment.lease (snd kv) = Some id) (payments db)))).

(** [GET /api/leases/:id] for the authenticated user [uid] of role
    [urole]: the status code and the payment history.  The tenant of the
    lease is populated; for a tenant the route reads [lease.tenant._id],
    which throws when the user no longer exists. *)
Definition get_lease (uid : nat) (urole : string) (id : nat) (db : DB)
    : Z * list (nat * Payment.t) :=
  match leases db !! id with
  | None => (404, [])
  | Some lease =>
      if String.eqb urole "tenant" then
        match users db !! Lease.tenant lease with
        | None => (500, [])
        | Some _ =>
            if negb (Nat.eqb (Lease.tenant lease) uid) then (403, [])
            else (200, lease_history id db)
        end
      else (200, lease_history id db)
  end.

(** [GET /api/payments/tenant/:tenantId] for the authenticated user
    [uid] of role [urole]. *)
Definition tenant_payments (uid : nat) (urole : string) (tenantId : nat)
    (db : DB) : Z * list (nat * Payment.t) :=
  if String.eqb urole "tenant" && negb (Nat.eqb uid tenantId) then (403, [])
  else
    (200,
     merge_sort by_dueDate_desc
       (map_to_list
          (filter (fun kv => Payment.tenant (snd kv) = tenantId)
             (payments db)))).

(** * Theorems *)

(** ** Calendar arithmetic *)

Section Calendar.
Import JsDate.

Ltac split_ifs :=
  repeat match goal with
    | |- context [if ?b then _ else _] => destruct b eqn:?
    end.

Lemma year_bracket d :
  DayFromYear (YearFromDay d) <= d < DayFromYear (YearFromDay d + 1).
Proof.
  unfold YearFromDay, DayFromYear. split_ifs; Z.div_mod_to_equations; lia.
Qed.

Lemma year_length y : DayFromYear (y + 1) - DayFromYear y = DaysInYear y.
Proof.
  unfold DaysInYear, InLeapYear, DayFromYear.
  destruct (y mod 4 =? 0) eqn:H4, (y mod 100 =? 0) eqn:H100,
    (y mod 400 =? 0) eqn:H400; cbn [negb];
    Z.div_mod_to_equations; lia.
Qed.

Lemma month_range leap n : 0 <= MonthFromDayInYear leap n <= 11.
Proof. unfold MonthFromDayInYear. split_ifs; lia. Qed.

Lemma MonthFromTime_range t : 0 <= MonthFromTime t <= 11.
Proof. apply month_range. Qed.

Lemma time_split t : t = MakeDate (Day t) (TimeWithinDay t).
Proof.
  unfold MakeDate, Day, TimeWithinDay, msPerDay.
  Z.div_mod_to_equations; lia.
Qed.

Lemma TimeWithinDay_range t : 0 <= TimeWithinDay t < msPerDay.
Proof. unfold TimeWithinDay, msPerDay. Z.div_mod_to_equations; lia. Qed.

(** The calendar fields of a time value give its day number back. *)
Lemma MakeDay_fields t :
  MakeDay (YearFromTime t) (MonthFromTime t) (DateFromTime t) = Day t.
Proof.
  pose proof (MonthFromTime_range t) as Hm.
  unfold MakeDay, DateFromTime, DayWithinYear.
  replace (MonthFromTime t / 12) with 0 by (Z.div_mod_to_equations; lia).
  replace (MonthFromTime t mod 12) with (MonthFromTime t)
    by (Z.div_mod_to_equations; lia).
  replace (YearFromTime t + 0) with (YearFromTime t) by lia.
  lia.
Qed.

Lemma days_in_month_ge leap m : 0 <= m <= 11 -> 28 <= DaysInMonth leap m <= 31.
Proof.
  intros Hm. unfold DaysInMonth, DaysBeforeMonth.
  destruct leap; split_ifs; lia.
Qed.

(** Moving to the next month adds the length of the current month. *)
Lemma MakeDay_next_month y m d :
  0 <= m <= 11 ->
  MakeDay y (m + 1) d = MakeDay y m d + DaysInMonth (InLeapYear y) m.
Proof.
  intros Hm. unfold MakeDay.
  replace (m / 12) with 0 by (Z.div_mod_to_equations; lia).
  replace (m mod 12) with m by (Z.div_mod_to_equations; lia).
  replace (y + 0) with y by lia.
  destruct (Z.eq_dec m 11) as [-> | Hne].
  - change ((11 + 1) / 12) with 1. change ((11 + 1) mod 12) with 0.
    pose proof (year_length y) as Hy. unfold DaysInYear in Hy.
    unfold DaysInMonth.
    change (11 + 1) with 12.
    destruct (InLeapYear y), (InLeapYear (y + 1)); cbn in *; lia.
  - replace ((m + 1) / 12) with 0 by (Z.div_mod_to_equations; lia).
    replace ((m + 1) mod 12) with (m + 1) by (Z.div_mod_to_equations; lia).
    replace (y + 0) with y by lia.
    unfold DaysInMonth. lia.
Qed.

(** [setMonth (getMonth () + 1)] moves a date on by 28 to 31 days. *)
Lemma setMonth_next t :
  t + 28 * msPerDay <= setMonth t (getMonth t + 1) <= t + 31 * msPerDay.
Proof.
  unfold setMonth, getMonth.
  rewrite (MakeDay_next_month _ _ _ (MonthFromTime_range t)), MakeDay_fields.
  pose proof (days_in_month_ge (InLeapYear (YearFromTime t)) _
                (MonthFromTime_range t)) as Hd.
  pose proof (time_split t) as Ht. unfold MakeDate in *.
  generalize dependent (DaysInMonth (InLeapYear (YearFromTime t)) (MonthFromTime t)).
  generalize dependent (Day t). generalize dependent (TimeWithinDay t).
  unfold msPerDay. intros. lia.
Qed.

Lemma schedule_loop_S n cur e :
  schedule_loop (S n) cur e =
  if cur <=? e
  then option_map (cons cur)
         (schedule_loop n (setMonth cur (getMonth cur + 1)) e)
  else Some [].
Proof. reflexivity. Qed.

(** The iteration bound of the schedule loop is never reached. *)
Lemma schedule_loop_fuel n : forall cur e,
  e - cur < 28 * msPerDay * Z.of_nat n ->
  schedule_loop (S n) cur e <> None.
Proof.
  induction n as [|n IH]; intros cur e Hlt.
  - rewrite schedule_loop_S. destruct (cur <=? e) eqn:Hle; [lia | discriminate].
  - rewrite schedule_loop_S.
    destruct (cur <=? e) eqn:Hle; [| discriminate].
    pose proof (setMonth_next cur) as Hs.
    specialize (IH (setMonth cur (getMonth cur + 1)) e).
    destruct (schedule_loop (S n) _ e); [discriminate |].
    exfalso. apply IH; [| reflexivity]. unfold msPerDay in *. lia.
Qed.

Lemma schedule_fuel_enough cur e :
  schedule_loop (schedule_fuel cur e) cur e <> None.
Proof.
  unfold schedule_fuel.
  replace (Z.to_nat ((e - cur) / (28 * msPerDay)) + 2)%nat
    with (S (S (Z.to_nat ((e - cur) / (28 * msPerDay))))) by lia.
  apply schedule_loop_fuel. unfold msPerDay.
  Z.div_mod_to_equations; lia.
Qed.

(** With enough fuel the result of the loop does not depend on it. *)
Lemma schedule_loop_more n : forall m cur e l,
  schedule_loop n cur e = Some l -> (n <= m)%nat ->
  schedule_loop m cur e = Some l.
Proof.
  induction n as [|n IH]; intros m cur e l H Hle; [discriminate |].
  destruct m as [|m]; [lia |].
  rewrite schedule_loop_S in *. destruct (cur <=? e); [| exact H].
  destruct (schedule_loop n _ e) as [l' |] eqn:Hn; [| discriminate].
  rewrite (IH m _ _ l' Hn) by lia. exact H.
Qed.
End Calendar.

(** ** Calendar fields *)

Section CalendarFields.
Import JsDate.

Ltac case_ifs :=
  repeat match goal with
    | |- context [if ?b then _ else _] => destruct b eqn:?
    end.

Ltac eval_days :=
  repeat match goal with
    | |- context [DaysBeforeMonth ?l ?k] =>
        let v := eval vm_compute in (DaysBeforeMonth l k) in
        change (DaysBeforeMonth l k) with v
    | H : context [DaysBeforeMonth ?l ?k] |- _ =>
        let v := eval vm_compute in (DaysBeforeMonth l k) in
        change (DaysBeforeMonth l k) with v in H
    end.

Ltac case_day n :=
  repeat match goal with
    | |- context [n <? ?c] => destruct (n <? c) eqn:?; cbv beta iota
    end.

Lemma DayFromYear_mono a b : a <= b -> DayFromYear a <= DayFromYear b.
Proof. unfold DayFromYear. intros H. Z.div_mod_to_equations; lia. Qed.

(** The year of a day number is the one whose days contain it. *)
Lemma YearFromDay_unique y d :
  DayFromYear y <= d < DayFromYear (y + 1) -> YearFromDay d = y.
Proof.
  intros Hd. pose proof (year_bracket d) as Hb.
  destruct (Z.lt_trichotomy (YearFromDay d) y) as [Hlt | [Heq | Hgt]];
    [| exact Heq |].
  - pose proof (DayFromYear_mono (YearFromDay d + 1) y ltac:(lia)). lia.
  - pose proof (DayFromYear_mono (y + 1) (YearFromDay d) ltac:(lia)). lia.
Qed.

Lemma DayWithinYear_range t :
  0 <= DayWithinYear t < DaysInYear (YearFromTime t).
Proof.
  unfold DayWithinYear, YearFromTime.
  pose proof (year_bracket (Day t)) as Hb.
  pose proof (year_length (YearFromDay (Day t))) as Hl. lia.
Qed.

Lemma month_bracket (leap : bool) n :
  0 <= n < (if leap then 366 else 365) ->
  DaysBeforeMonth leap (MonthFromDayInYear leap n) <= n
  < DaysBeforeMonth leap (MonthFromDayInYear leap n + 1).
Proof.
  intros Hn. unfold MonthFromDayInYear.
  destruct leap; case_day n; eval_days; lia.
Qed.

Lemma month_unique (leap : bool) m n :
  0 <= m <= 11 ->
  DaysBeforeMonth leap m <= n < DaysBeforeMonth leap (m + 1) ->
  MonthFromDayInYear leap n = m.
Proof.
  intros Hm.
  assert (m = 0 \/ m = 1 \/ m = 2 \/ m = 3 \/ m = 4 \/ m = 5 \/ m = 6 \/ m = 7
          \/ m = 8 \/ m = 9 \/ m = 10 \/ m = 11) as Hcases by lia.
  unfold MonthFromDayInYear.
  destruct leap;
    repeat (destruct Hcases as [-> | Hcases]); try subst m;
    intros Hn; case_day n; eval_days; lia.
Qed.

(** The day of the month lies within the month. *)
Lemma DateFromTime_range t :
  1 <= DateFromTime t
  <= DaysInMonth (InLeapYear (YearFromTime t)) (MonthFromTime t).
Proof.
  pose proof (DayWithinYear_range t) as Hr. unfold DaysInYear in Hr.
  pose proof (month_bracket (InLeapYear (YearFromTime t)) (DayWithinYear t))
    as Hb.
  unfold DateFromTime, DaysInMonth, MonthFromTime.
  destruct (InLeapYear (YearFromTime t)); lia.
Qed.

Lemma Day_MakeDate d tod : 0 <= tod < msPerDay -> Day (MakeDate d tod) = d.
Proof.
  unfold Day, MakeDate, msPerDay. intros H. Z.div_mod_to_equations; lia.
Qed.

Lemma TimeWithinDay_MakeDate d tod :
  0 <= tod < msPerDay -> TimeWithinDay (MakeDate d tod) = tod.
Proof.
  unfold TimeWithinDay, MakeDate, msPerDay. intros H.
  Z.div_mod_to_equations; lia.
Qed.

Lemma DaysBeforeMonth_bounds (leap : bool) m :
  0 <= m <= 11 ->
  0 <= DaysBeforeMonth leap m
  /\ DaysBeforeMonth leap (m + 1) <= (if leap then 366 else 365).
Proof.
  intros Hm. unfold DaysBeforeMonth. destruct leap; case_ifs; lia.
Qed.

(** Round trip: a date that exists in the calendar is read back from the
    time value built from it. *)
Lemma civil_MakeDate y m d tod :
  0 <= m <= 11 -> 1 <= d <= DaysInMonth (InLeapYear y) m ->
  0 <= tod < msPerDay ->
  civil (MakeDate (MakeDay y m d) tod) = (y, m, d)
  /\ TimeWithinDay (MakeDate (MakeDay y m d) tod) = tod.
Proof.
  intros Hm Hd Htod. split; [| by apply TimeWithinDay_MakeDate].
  pose proof (DaysBeforeMonth_bounds (InLeapYear y) m Hm) as [Hb0 Hb1].
  pose proof (year_length y) as Hlen. unfold DaysInYear in Hlen.
  unfold DaysInMonth in Hd.
  assert (MakeDay y m d = DayFromYear y + DaysBeforeMonth (InLeapYear y) m
                          + d - 1) as HD.
  { unfold MakeDay.
    replace (m / 12) with 0 by (Z.div_mod_to_equations; lia).
    replace (m mod 12) with m by (Z.div_mod_to_equations; lia).
    by replace (y + 0) with y by lia. }
  assert (YearFromTime (MakeDate (MakeDay y m d) tod) = y) as Hy.
  { unfold YearFromTime. rewrite Day_MakeDate by done.
    apply YearFromDay_unique. rewrite HD.
    destruct (InLeapYear y); lia. }
  assert (DayWithinYear (MakeDate (MakeDay y m d) tod)
          = DaysBeforeMonth (InLeapYear y) m + d - 1) as Hw.
  { unfold DayWithinYear. rewrite Hy, Day_MakeDate by done. lia. }
  assert (MonthFromTime (MakeDate (MakeDay y m d) tod) = m) as Hmo.
  { unfold MonthFromTime. rewrite Hy, Hw. apply month_unique; [done | lia]. }
  unfold civil, DateFromTime. rewrite Hmo, Hy, Hw. f_equal. lia.
Qed.

(** [setDate] moves a date by whole days. *)
Lemma setDate_shift t dt :
  setDate t dt = t + (dt - DateFromTime t) * msPerDay.
Proof.
  unfold setDate. pose proof (MakeDay_fields t) as Hf.
  pose proof (time_split t) as Ht. unfold MakeDay, MakeDate in *.
  generalize dependent (TimeWithinDay t). generalize dependent (Day t).
  generalize dependent (DateFromTime t).
  generalize dependent
    (DaysBeforeMonth (InLeapYear (YearFromTime t + MonthFromTime t / 12))
       (MonthFromTime t mod 12)).
  generalize dependent (DayFromYear (YearFromTime t + MonthFromTime t / 12)).
  unfold msPerDay. intros. lia.
Qed.

(** [setDate] to a day that the month has keeps the month. *)
Lemma civil_setDate t dt :
  1 <= dt <= DaysInMonth (InLeapYear (YearFromTime t)) (MonthFromTime t) ->
  civil (setDate t dt) = (YearFromTime t, MonthFromTime t, dt)
  /\ TimeWithinDay (setDate t dt) = TimeWithinDay t.
Proof.
  intros Hd. unfold setDate.
  apply civil_MakeDate;
    [apply MonthFromTime_range | exact Hd | apply TimeWithinDay_range].
Qed.

Lemma MakeDay_carry y m d :
  0 <= m <= 11 -> MakeDay y (m + 1) d = MakeDay (next_year y m) (next_month m) d.
Proof.
  intros Hm. unfold next_year, next_month.
  destruct (m =? 11) eqn:E; [| reflexivity].
  assert (m = 11) as -> by lia. unfold MakeDay.
  change ((11 + 1) / 12) with 1. change ((11 + 1) mod 12) with 0.
  change (0 / 12) with 0. change (0 mod 12) with 0.
  by replace (y + 1 + 0) with (y + 1) by lia.
Qed.

(** Moving a date on the 28th or earlier to the next month keeps its day
    and its time of day. *)
Lemma civil_setMonth_next t :
  DateFromTime t <= 28 ->
  civil (setMonth t (getMonth t + 1))
  = (next_year (YearFromTime t) (MonthFromTime t),
     next_month (MonthFromTime t), DateFromTime t)
  /\ TimeWithinDay (setMonth t (getMonth t + 1)) = TimeWithinDay t.
Proof.
  intros Hd. unfold setMonth, getMonth.
  pose proof (MonthFromTime_range t) as Hm.
  rewrite MakeDay_carry by done.
  apply civil_MakeDate; [| | apply TimeWithinDay_range].
  - unfold next_month. destruct (_ =? 11) eqn:E; lia.
  - pose proof (DateFromTime_range t).
    assert (0 <= next_month (MonthFromTime t) <= 11) as Hn
        by (unfold next_month; destruct (_ =? 11) eqn:E; lia).
    pose proof (days_in_month_ge
                  (InLeapYear (next_year (YearFromTime t) (MonthFromTime t)))
                  _ Hn).
    lia.
Qed.
End CalendarFields.

(** ** Due dates of a schedule *)

Section Schedule.
Import JsDate.

Lemma month_index_next t :
  DateFromTime t <= 28 ->
  DateFromTime (setMonth t (getMonth t + 1)) = DateFromTime t
  /\ month_index (setMonth t (getMonth t + 1)) = month_index t + 1
  /\ TimeWithinDay (setMonth t (getMonth t + 1)) = TimeWithinDay t.
Proof.
  intros Hd. destruct (civil_setMonth_next t Hd) as [Hc Ht].
  unfold civil in Hc. injection Hc as Hy Hm Hdt.
  pose proof (MonthFromTime_range t) as Hr.
  split; [exact Hdt |]. split; [| exact Ht].
  unfold month_index. rewrite Hy, Hm. unfold next_year, next_month.
  destruct (MonthFromTime t =? 11) eqn:E; lia.
Qed.

Lemma schedule_loop_bounds fuel : forall cur e l,
  schedule_loop fuel cur e = Some l ->
  Forall (fun d => cur <= d <= e) l
  /\ spaced l
  /\ head l = (if cur <=? e then Some cur else None).
Proof.
  induction fuel as [| n IH]; intros cur e l H; [discriminate |].
  rewrite schedule_loop_S in H.
  destruct (cur <=? e) eqn:Hle.
  - destruct (schedule_loop n _ e) as [l' |] eqn:Hn; [| discriminate].
    injection H as <-. destruct (IH _ _ _ Hn) as (Hall & Hsp & Hhd).
    pose proof (setMonth_next cur) as Hs.
    split; [| split; [| reflexivity]].
    + constructor; [lia |].
      eapply Forall_impl; [exact Hall |]. cbn. intros d Hd.
      unfold msPerDay in Hs. lia.
    + destruct l' as [| b rest]; [exact I |]. cbn [spaced]. split; [| exact Hsp].
      change (head (b :: rest)) with (Some b) in Hhd.
      destruct (_ <=? e) in Hhd; [| discriminate].
      injection Hhd as ->. exact Hs.
  - injection H as <-. repeat split; constructor.
Qed.

(** The loop stops only when the next month's date is after the end. *)
Lemma schedule_loop_last fuel : forall cur e l,
  schedule_loop fuel cur e = Some l ->
  match last l with
  | Some d => e < setMonth d (getMonth d + 1)
  | None => e < cur
  end.
Proof.
  induction fuel as [| n IH]; intros cur e l H; [discriminate |].
  rewrite schedule_loop_S in H.
  destruct (cur <=? e) eqn:Hle.
  - destruct (schedule_loop n _ e) as [l' |] eqn:Hn; [| discriminate].
    injection H as <-. specialize (IH _ _ _ Hn).
    destruct l' as [| b rest]; [exact IH |].
    rewrite last_cons_cons.
    destruct (last (b :: rest)) eqn:E; [exact IH | by apply last_None in E].
  - injection H as <-. cbn. lia.
Qed.

Lemma schedule_loop_due_day fuel : forall cur e l,
  DateFromTime cur <= 28 ->
  schedule_loop fuel cur e = Some l ->
  forall k d, l !! k = Some d ->
    DateFromTime d = DateFromTime cur
    /\ month_index d = month_index cur + Z.of_nat k
    /\ TimeWithinDay d = TimeWithinDay cur.
Proof.
  induction fuel as [| n IH]; intros cur e l Hd H; [discriminate |].
  rewrite schedule_loop_S in H.
  destruct (cur <=? e) eqn:Hle.
  - destruct (schedule_loop n _ e) as [l' |] eqn:Hn; [| discriminate].
    injection H as <-. destruct (month_index_next cur Hd) as (H1 & H2 & H3).
    intros [| k] d Hk.
    + injection Hk as <-. repeat split; lia.
    + cbn in Hk.
      assert (DateFromTime (setMonth cur (getMonth cur + 1)) <= 28) as Hd'
          by lia.
      destruct (IH _ _ _ Hd' Hn k d Hk) as (E1 & E2 & E3).
      repeat split; lia.
  - injection H as <-. intros k d Hk. by rewrite lookup_nil in Hk.
Qed.

Lemma schedule_dates_loop lease :
  schedule_loop (schedule_fuel (first_due lease) (Lease.endDate lease))
    (first_due lease) (Lease.endDate lease)
  = Some (schedule_dates lease).
Proof.
  unfold schedule_dates.
  pose proof (schedule_fuel_enough (first_due lease) (Lease.endDate lease)).
  by destruct (schedule_loop _ _ _).
Qed.

(** The first due date is on or after the start of the lease and at most
    30 days after it. *)
Lemma first_due_bounds lease :
  1 <= Lease.paymentDueDate lease <= 31 ->
  Lease.startDate lease <= first_due lease
  <= Lease.startDate lease + 30 * msPerDay.
Proof.
  intros Hd. unfold first_due. cbv zeta.
  set (s := Lease.startDate lease). set (dd := Lease.paymentDueDate lease) in *.
  pose proof (setDate_shift s dd) as Hshift.
  pose proof (DateFromTime_range s) as Hr.
  pose proof (days_in_month_ge (InLeapYear (YearFromTime s)) _
                (MonthFromTime_range s)) as Hdim.
  destruct (setDate s dd <? s) eqn:Hlt.
  - assert (dd < DateFromTime s) as Hdd by (unfold msPerDay in *; lia).
    destruct (civil_setDate s dd ltac:(lia)) as [Hc Ht].
    unfold civil in Hc. injection Hc as Hy Hm Hdt.
    unfold setMonth, getMonth. rewrite Hy, Hm, Hdt, Ht.
    rewrite (MakeDay_next_month _ _ _ (MonthFromTime_range s)).
    assert (setDate s dd = MakeDate (MakeDay (YearFromTime s) (MonthFromTime s) dd)
                             (TimeWithinDay s)) as E by reflexivity.
    unfold MakeDate, msPerDay in *. lia.
  - unfold msPerDay in *. lia.
Qed.
End Schedule.

(** ** The store *)

Section Store.
Context {A : Type}.
Implicit Types (m : gmap nat A) (q : nat -> A -> bool).

Lemma exists_doc_true q m :
  exists_doc q m = true <-> exists k v, m !! k = Some v /\ q k v = true.
Proof.
  unfold exists_doc. rewrite existsb_exists. split.
  - intros [[k v] [Hin Hq]]. exists k, v. split; [| exact Hq].
    apply elem_of_map_to_list, list_elem_of_In, Hin.
  - intros (k & v & Hl & Hq). exists (k, v). split; [| exact Hq].
    apply list_elem_of_In, elem_of_map_to_list, Hl.
Qed.

Lemma exists_doc_false q m :
  exists_doc q m = false <-> forall k v, m !! k = Some v -> q k v = false.
Proof.
  split.
  - intros Hf k v Hl. destruct (q k v) eqn:Hq; [| reflexivity].
    rewrite <- Hf. symmetry. apply exists_doc_true. eauto.
  - intros Hall. destruct (exists_doc q m) eqn:He; [| reflexivity].
    apply exists_doc_true in He as (k & v & Hl & Hq).
    rewrite (Hall k v Hl) in Hq. discriminate.
Qed.

Lemma new_id_fresh m : m !! new_id m = None.
Proof. unfold new_id. apply not_elem_of_dom, is_fresh. Qed.

End Store.

Lemma in_enum_open l :
  in_enum (Lease.status l) ["active"; "pending"] = true <-> open_lease l.
Proof.
  unfold in_enum, open_lease. cbn [existsb]. rewrite !orb_true_iff, !String.eqb_eq.
  intuition discriminate.
Qed.

Lemma overlaps_true pid s e l :
  overlaps pid s e l = true <->
  Lease.property l = pid /\ open_lease l
  /\ Lease.startDate l <= e /\ s <= Lease.endDate l.
Proof.
  unfold overlaps.
  rewrite !andb_true_iff, Nat.eqb_eq, in_enum_open, !Z.leb_le. tauto.
Qed.

(** ** Creating a lease *)

Lemma createPaymentSchedule_frame lid lease db :
  properties (createPaymentSchedule lid lease db) = properties db
  /\ users (createPaymentSchedule lid lease db) = users db
  /\ leases (createPaymentSchedule lid lease db) = leases db.
Proof.
  unfold createPaymentSchedule.
  destruct (insertMany _ _); cbn; auto.
Qed.

(** The batch built for a lease never passes validation when it is not
    empty: its documents carry the payment method [pending], which the
    schema's enumeration lacks. *)
Lemma schedule_rejected lid lease m :
  schedule lid lease <> [] -> insertMany (schedule lid lease) m = None.
Proof.
  unfold insertMany, schedule.
  destruct (schedule_dates lease) as [| d ds]; [intros H; by destruct H |].
  intros _. cbn [map forallb]. unfold Payment.validate at 1. cbn.
  rewrite !andb_false_r. reflexivity.
Qed.

(** When the checks pass the route answers 201 and leaves the lease, the
    two back-references and whatever the schedule step stored. *)
Lemma create_lease_success req db pid tid property tenant :
  admissible req db pid tid property tenant ->
  Lease.validate (leaseData req pid tid property) = true ->
  Property_schema.validate property = true ->
  create_lease req db =
    (createPaymentSchedule (new_id (leases db)) (leaseData req pid tid property)
       (with_lease req db pid tid property tenant),
     respond 201 "Lease created successfully").
Proof.
  intros (Hp & Hpl & Ht & Htl & Hrole & Hov) Hvl Hvp.
  unfold create_lease. rewrite Hp, Hpl, Ht, Htl, Hrole, Hov, Hvl.
  cbn [negb String.eqb Ascii.eqb Bool.eqb].
  replace (Property_schema.validate _) with true;
    [unfold with_lease; rewrite Hrole; reflexivity |].
  unfold Property_schema.validate in *. cbn in *.
  apply andb_true_iff in Hvp as [Hvp _]. rewrite Hvp. reflexivity.
Qed.

(** Whatever the request, the leases after the route are the leases
    before it, possibly with the new lease added under a fresh id, and
    the latter only when no stored lease overlaps. *)
Lemma create_lease_leases req db :
  leases (fst (create_lease req db)) = leases db
  \/ exists pid tid property,
       LeaseReq.propertyId req = Some pid
       /\ exists_doc
            (fun _ l =>
               overlaps pid (LeaseReq.startDate req) (LeaseReq.endDate req) l)
            (leases db) = false
       /\ Lease.validate (leaseData req pid tid property) = true
       /\ leases (fst (create_lease req db))
          = <[new_id (leases db) := leaseData req pid tid property]> (leases db).
Proof.
  unfold create_lease.
  destruct (LeaseReq.propertyId req) as [pid |]; [| by left].
  destruct (properties db !! pid) as [property |]; [| by left].
  destruct (LeaseReq.tenantId req) as [tid |]; [| by left].
  destruct (users db !! tid) as [tenant |]; [| by left].
  destruct (negb (String.eqb (User.role tenant) "tenant")); [by left |].
  destruct (exists_doc _ (leases db)) eqn:Hov; [by left |].
  destruct (Lease.validate (leaseData req pid tid property)) eqn:Hv;
    [| by left].
  right. exists pid, tid, property. repeat split; try done.
  cbn [negb]. destruct (negb (Property_schema.validate _)); [reflexivity |].
  cbn [fst]. by rewrite (proj2 (proj2 (createPaymentSchedule_frame _ _ _))).
Qed.

Lemma no_overlap_insert (m : gmap nat Lease.t) lease :
  no_overlap m ->
  exists_doc
    (fun _ l =>
       overlaps (Lease.property lease) (Lease.startDate lease)
         (Lease.endDate lease) l) m = false ->
  no_overlap (<[new_id m := lease]> m).
Proof.
  intros Hno Hov i j a b Hij Hi Hj Hprop Ha Hb Hmeet.
  rewrite exists_doc_false in Hov.
  destruct (decide (i = new_id m)) as [-> | Hni];
    destruct (decide (j = new_id m)) as [-> | Hnj]; [done | | |].
  - rewrite lookup_insert_eq in Hi. rewrite lookup_insert_ne in Hj by done.
    injection Hi as <-. specialize (Hov j b Hj).
    assert (overlaps (Lease.property lease) (Lease.startDate lease)
              (Lease.endDate lease) b = true) as Ht; [| congruence].
    apply overlaps_true. destruct Hmeet. auto.
  - rewrite lookup_insert_eq in Hj. rewrite lookup_insert_ne in Hi by done.
    injection Hj as <-. specialize (Hov i a Hi).
    assert (overlaps (Lease.property lease) (Lease.startDate lease)
              (Lease.endDate lease) a = true) as Ht; [| congruence].
    apply overlaps_true. destruct Hmeet. auto.
  - rewrite lookup_insert_ne in Hi by done.
    rewrite lookup_insert_ne in Hj by done.
    exact (Hno i j a b Hij Hi Hj Hprop Ha Hb Hmeet).
Qed.

Lemma with_lease_lookups req db pid tid property tenant :
  let db' := with_lease req db pid tid property tenant in
  let lid := new_id (leases db) in
  leases db' !! lid = Some (leaseData req pid tid property)
  /\ (exists p, properties db' !! pid = Some p
        /\ Property.currentLease p = Some lid
        /\ Property.currentTenant p = Some tid
        /\ Property.status p = "occupied")
  /\ (exists u, users db' !! tid = Some u
        /\ User.leaseId u = Some lid /\ User.propertyId u = Some pid)
  /\ payments db' = payments db.
Proof.
  cbn. rewrite !lookup_insert_eq.
  split; [reflexivity |]. split; [eexists; split; [reflexivity | auto] |].
  split; [eexists; split; [reflexivity | auto] | reflexivity].
Qed.

Ltac sample_admissible :=
  repeat split; vm_compute; reflexivity.

(** C5. When the insertion of the schedule is rejected during lease
    creation, nothing is rolled back: the route still answers 201, the
    lease is stored, the property and the tenant point to it, and no
    payment has been added. *)
Theorem schedule_failure_not_rolled_back req db pid tid property tenant :
  admissible req db pid tid property tenant ->
  Lease.validate (leaseData req pid tid property) = true ->
  Property_schema.validate property = true ->
  insertMany (schedule (new_id (leases db)) (leaseData req pid tid property))
    (payments db) = None ->
  let db' := fst (create_lease req db) in
  let lid := new_id (leases db) in
  code (snd (create_lease req db)) = 201
  /\ leases db' !! lid = Some (leaseData req pid tid property)
  /\ (exists p, properties db' !! pid = Some p
        /\ Property.currentLease p = Some lid
        /\ Property.currentTenant p = Some tid
        /\ Property.status p = "occupied")
  /\ (exists u, users db' !! tid = Some u
        /\ User.leaseId u = Some lid /\ User.propertyId u = Some pid)
  /\ payments db' = payments db.
Proof.
  intros Hadm Hvl Hvp Hins.
  rewrite (create_lease_success _ _ _ _ _ _ Hadm Hvl Hvp).
  unfold createPaymentSchedule. cbn [fst snd code respond].
  replace (payments (with_lease req db pid tid property tenant))
    with (payments db) by reflexivity.
  rewrite Hins. split; [reflexivity |].
  apply with_lease_lookups.
Qed.

Lemma schedule_failure_not_rolled_back_witness :
  code (snd (create_lease Sample.req_example Sample.db0)) = 201
  /\ leases (fst (create_lease Sample.req_example Sample.db0)) !! 0%nat
     = Some Sample.lease_example
  /\ payments (fst (create_lease Sample.req_example Sample.db0)) = ∅.
Proof.
  destruct (schedule_failure_not_rolled_back Sample.req_example Sample.db0
              1%nat 1%nat Sample.house Sample.alice)
    as (Hc & Hl & _ & _ & Hp).
  - sample_admissible.
  - vm_compute; reflexivity.
  - vm_compute; reflexivity.
  - vm_compute; reflexivity.
  - split; [exact Hc |]. split; [exact Hl | exact Hp].
Defined.

(** C8 (as the code has it). The create route has no check on the order
    of the two dates.  It answers 400 only when the property is missing,
    the tenant is missing or not a tenant, or an open lease of the
    property meets the interval, and then nothing is stored; a request
    that passes these checks and the schema is answered 201 and stored
    with its references even when its end date is before its start
    date. *)
Theorem create_lease_ignores_date_order req db :
  (code (snd (create_lease req db)) = 400 ->
   fst (create_lease req db) = db
   /\ ~ exists pid tid property tenant,
          admissible req db pid tid property tenant)
  /\ (forall pid tid property tenant,
        admissible req db pid tid property tenant ->
        Lease.validate (leaseData req pid tid property) = true ->
        Property_schema.validate property = true ->
        LeaseReq.endDate req < LeaseReq.startDate req ->
        let db' := fst (create_lease req db) in
        let lid := new_id (leases db) in
        code (snd (create_lease req db)) = 201
        /\ (exists l, leases db' !! lid = Some l
              /\ Lease.endDate l < Lease.startDate l
              /\ Lease.status l = "pending")
        /\ (exists p, properties db' !! pid = Some p
              /\ Property.currentLease p = Some lid
              /\ Property.currentTenant p = Some tid
              /\ Property.status p = "occupied")
        /\ (exists u, users db' !! tid = Some u
              /\ User.leaseId u = Some lid /\ User.propertyId u = Some pid)).
Proof.
  split.
  - unfold create_lease.
    destruct (LeaseReq.propertyId req) as [pid |] eqn:Hp.
    2: { intros _. split; [reflexivity |].
         intros (? & ? & ? & ? & H & _). congruence. }
    destruct (properties db !! pid) as [property |] eqn:Hpl.
    2: { intros _. split; [reflexivity |].
         intros (? & ? & ? & ? & H1 & H2 & _). congruence. }
    destruct (LeaseReq.tenantId req) as [tid |] eqn:Ht.
    2: { intros _. split; [reflexivity |].
         intros (? & ? & ? & ? & _ & _ & H & _). congruence. }
    destruct (users db !! tid) as [tenant |] eqn:Htl.
    2: { intros _. split; [reflexivity |].
         intros (? & ? & ? & ? & _ & _ & H1 & H2 & _). congruence. }
    destruct (String.eqb (User.role tenant) "tenant") eqn:Hrole; cbn [negb].
    2: { intros _. split; [reflexivity |].
         intros (? & ? & ? & ? & _ & _ & H1 & H2 & H3 & _).
         assert (x2 = tenant) as -> by congruence.
         apply String.eqb_eq in H3. congruence. }
    destruct (exists_doc _ (leases db)) eqn:Hov.
    { intros _. split; [reflexivity |].
      intros (? & ? & ? & ? & H1 & _ & _ & _ & _ & H6).
      assert (x = pid) as -> by congruence. congruence. }
    destruct (negb (Lease.validate _)); [cbn; discriminate |].
    destruct (negb (Property_schema.validate _)); cbn; discriminate.
  - intros pid tid property tenant Hadm Hvl Hvp Hrev db' lid.
    subst db' lid. rewrite (create_lease_success _ _ _ _ _ _ Hadm Hvl Hvp).
    cbn [fst snd code respond].
    destruct (createPaymentSchedule_frame (new_id (leases db))
                (leaseData req pid tid property)
                (with_lease req db pid tid property tenant))
      as (-> & -> & ->).
    destruct (with_lease_lookups req db pid tid property tenant)
      as (Hl & Hpr & Hu & _).
    split; [reflexivity |]. split; [| split; assumption].
    exists (leaseData req pid tid property). split; [exact Hl |].
    split; [exact Hrev | reflexivity].
Qed.

Lemma create_lease_ignores_date_order_witness :
  code (snd (create_lease Sample.req_reversed Sample.db0)) = 201
  /\ exists l,
       leases (fst (create_lease Sample.req_reversed Sample.db0)) !! 0%nat
       = Some l
       /\ Lease.endDate l < Lease.startDate l.
Proof.
  destruct (create_lease_ignores_date_order Sample.req_reversed Sample.db0)
    as [_ H].
  destruct (H 1%nat 1%nat Sample.house Sample.alice)
    as (Hc & (l & Hl & Hlt & _) & _).
  - sample_admissible.
  - vm_compute; reflexivity.
  - vm_compute; reflexivity.
  - vm_compute; reflexivity.
  - split; [exact Hc |]. exists l. split; [exact Hl | exact Hlt].
Defined.

(** C8 (as the specification has it) fails: a request whose end date,
    2024-01-15, lies before its start date, 2024-06-15, is answered 201
    and the lease is stored. *)
Lemma reversed_dates_accepted :
  code (snd (create_lease Sample.req_reversed Sample.db0)) = 201
  /\ leases (fst (create_lease Sample.req_reversed Sample.db0)) !! 0%nat
     = Some (leaseData Sample.req_reversed 1 1 Sample.house)
  /\ Lease.endDate (leaseData Sample.req_reversed 1 1 Sample.house)
     < Lease.startDate (leaseData Sample.req_reversed 1 1 Sample.house)
  /\ code (snd (create_lease Sample.req_reversed Sample.db0)) <> 400.
Proof. vm_compute. repeat split; congruence. Qed.




Lemma no_overlap_empty : no_overlap ∅.
Proof. intros i j a b _ Hi. by rewrite lookup_empty in Hi. Qed.

(** C2 (as the code has it). Creating a lease whose interval meets that
    of an open lease of the same property is answered 400 and stores
    nothing; and the create route keeps the non-overlap property of the
    stored leases. *)
Theorem create_lease_overlap_guard req db :
  (forall pid k l,
      LeaseReq.propertyId req = Some pid ->
      leases db !! k = Some l ->
      Lease.property l = pid -> open_lease l ->
      Lease.startDate l <= LeaseReq.endDate req ->
      LeaseReq.startDate req <= Lease.endDate l ->
      fst (create_lease req db) = db
      /\ code (snd (create_lease req db)) = 400)
  /\ (no_overlap (leases db) ->
      no_overlap (leases (fst (create_lease req db)))).
Proof.
  split.
  - intros pid k l Hp Hl Hprop Hopen Hs He.
    assert (exists_doc
              (fun _ l =>
                 overlaps pid (LeaseReq.startDate req) (LeaseReq.endDate req) l)
              (leases db) = true) as Hov.
    { apply exists_doc_true. exists k, l. split; [exact Hl |].
      apply overlaps_true. auto. }
    unfold create_lease. rewrite Hp.
    destruct (properties db !! pid) as [property |]; [| cbn; auto].
    destruct (LeaseReq.tenantId req) as [tid |]; [| cbn; auto].
    destruct (users db !! tid) as [tenant |]; [| cbn; auto].
    destruct (negb (String.eqb (User.role tenant) "tenant")); [cbn; auto |].
    rewrite Hov. cbn. auto.
  - intros Hno.
    destruct (create_lease_leases req db)
      as [-> | (pid & tid & property & _ & Hov & _ & ->)]; [exact Hno |].
    apply no_overlap_insert; [exact Hno | exact Hov].
Qed.

Lemma create_lease_overlap_guard_witness :
  let db1 := fst (create_lease Sample.req_example Sample.db0) in
  fst (create_lease Sample.req_second db1) = db1
  /\ code (snd (create_lease Sample.req_second db1)) = 400
  /\ no_overlap (leases (fst (create_lease Sample.req_second db1))).
Proof.
  intros db1.
  destruct (create_lease_overlap_guard Sample.req_second db1) as [H1 H2].
  destruct (H1 1%nat 0%nat Sample.lease_example) as [Hdb Hc].
  - reflexivity.
  - vm_compute; reflexivity.
  - reflexivity.
  - right; reflexivity.
  - vm_compute; discriminate.
  - vm_compute; discriminate.
  - split; [exact Hdb |]. split; [exact Hc |].
    apply H2.
    apply (proj2 (create_lease_overlap_guard Sample.req_example Sample.db0)).
    exact no_overlap_empty.
Defined.

(** C2 (as the specification has it) fails: after a lease is created and
    terminated, a second lease of the property is created over meeting
    dates, and the first is activated again, two open leases of one
    property overlap.  Every request of the sequence succeeds. *)
Lemma overlap_invariant_not_kept :
  let rs := [CreateLease Sample.req_example; Terminate 0;
             CreateLease Sample.req_second; Activate 0] in
  no_overlap (leases Sample.db0)
  /\ responses rs Sample.db0 = [201; 200; 201; 200]
  /\ ~ no_overlap (leases (run rs Sample.db0)).
Proof.
  intros rs. split; [| split].
  - exact no_overlap_empty.
  - vm_compute; reflexivity.
  - intros Hno.
    apply (Hno 0%nat 1%nat (Lease.set_status "active" Sample.lease_example)
             (leaseData Sample.req_second 1 2 Sample.house)).
    + discriminate.
    + vm_compute; reflexivity.
    + vm_compute; reflexivity.
    + reflexivity.
    + left; reflexivity.
    + right; reflexivity.
    + split; vm_compute; discriminate.
Qed.

(** ** Terminating a lease *)

Lemma validate_set_status s l :
  Lease.validate l = true ->
  in_enum s Lease.status_enum = true ->
  Lease.validate (Lease.set_status s l) = true.
Proof.
  unfold Lease.validate. cbn [Lease.set_status Lease.monthlyRent
    Lease.securityDeposit Lease.status Lease.leaseTerms Lease.paymentDueDate].
  rewrite !andb_true_iff. intros (((((? & ?) & _) & ?) & ?) & ?) ?.
  repeat split; assumption.
Qed.

(** C6. Terminating a stored lease sets its status to [terminated],
    clears the current tenant and lease of its property and makes it
    [available], clears the tenant's property and lease, and leaves the
    payment collection as it was, whatever payments it holds. *)
Theorem terminate_effects id db lease :
  leases db !! id = Some lease ->
  Lease.validate lease = true ->
  let db' := fst (terminate id db) in
  code (snd (terminate id db)) = 200
  /\ (exists l', leases db' !! id = Some l'
        /\ Lease.status l' = "terminated")
  /\ (forall p, properties db !! Lease.property lease = Some p ->
        exists p', properties db' !! Lease.property lease = Some p'
          /\ Property.currentTenant p' = None
          /\ Property.currentLease p' = None
          /\ Property.status p' = "available")
  /\ (forall u, users db !! Lease.tenant lease = Some u ->
        exists u', users db' !! Lease.tenant lease = Some u'
          /\ User.propertyId u' = None /\ User.leaseId u' = None)
  /\ payments db' = payments db.
Proof.
  intros Hl Hv. unfold terminate. rewrite Hl.
  rewrite (validate_set_status "terminated" lease Hv eq_refl).
  cbn [negb fst snd code respond leases properties users payments
       set_leases set_properties set_users].
  split; [reflexivity |]. split.
  { eexists. rewrite lookup_insert_eq. split; reflexivity. }
  split.
  { intros p Hp. exists (clear_property p).
    rewrite lookup_alter_eq, Hp. auto. }
  split; [| reflexivity].
  intros u Hu. exists (clear_tenant u). rewrite lookup_alter_eq, Hu. auto.
Qed.

Lemma terminate_effects_witness :
  let db1 := fst (create_lease Sample.req_example Sample.db0) in
  code (snd (terminate 0 db1)) = 200
  /\ payments (fst (terminate 0 db1)) = payments db1.
Proof.
  intros db1.
  destruct (terminate_effects 0%nat db1 Sample.lease_example)
    as (Hc & _ & _ & _ & Hp).
  - vm_compute; reflexivity.
  - vm_compute; reflexivity.
  - split; [exact Hc | exact Hp].
Defined.

(** ** Settling a payment *)

Lemma pre_save_fields now rnd p :
  let p' := Payment.pre_save now rnd p in
  Payment.lease p' = Payment.lease p
  /\ Payment.tenant p' = Payment.tenant p
  /\ Payment.property p' = Payment.property p
  /\ Payment.amount p' = Payment.amount p
  /\ Payment.paymentType p' = Payment.paymentType p
  /\ Payment.paymentMethod p' = Payment.paymentMethod p
  /\ Payment.status p' = Payment.status p
  /\ Payment.dueDate p' = Payment.dueDate p
  /\ Payment.paidDate p' = Payment.paidDate p
  /\ Payment.lateFee p' = Payment.lateFee p
  /\ Payment.transactionId p' = Payment.transactionId p
  /\ Payment.notes p' = Payment.notes p.
Proof.
  unfold Payment.pre_save.
  destruct (_ && _); cbn; repeat split; reflexivity.
Qed.

(** The rule of the late fee, case by case. *)
Lemma late_fee_cases now payment db :
  (forall lease,
      Payment.dueDate payment < now ->
      findById (leases db) (Payment.lease payment) = Some lease ->
      Lease.lateFee_gracePeriod lease
      < JsDate.ceil_div (now - Payment.dueDate payment) JsDate.msPerDay ->
      late_fee now payment db = Lease.lateFee_amount lease)
  /\ (now <= Payment.dueDate payment -> late_fee now payment db = 0)
  /\ (findById (leases db) (Payment.lease payment) = None ->
      late_fee now payment db = 0)
  /\ (forall lease,
        findById (leases db) (Payment.lease payment) = Some lease ->
        JsDate.ceil_div (now - Payment.dueDate payment) JsDate.msPerDay
        <= Lease.lateFee_gracePeriod lease ->
        late_fee now payment db = 0).
Proof.
  unfold late_fee. repeat split.
  - intros lease Hdue -> Hg.
    replace (_ <? now) with true by lia. by replace (_ <? _) with true by lia.
  - intros Hdue. by replace (_ <? now) with false by lia.
  - intros ->. by destruct (_ <? now).
  - intros lease -> Hg. destruct (_ <? now); [| reflexivity].
    by replace (_ <? _) with false by lia.
Qed.

(** What a settlement answered 200 has written. *)
Lemma pay_ok now rnd1 rnd2 id req db payment :
  payments db !! id = Some payment ->
  code (snd (pay now rnd1 rnd2 id req db)) = 200 ->
  exists pm,
    PayReq.paymentMethod req = Some pm
    /\ let fee := late_fee now payment db in
       let p' := Payment.pre_save now rnd1 (settled now pm req fee payment) in
       let m1 := <[id := p']> (payments db) in
       let row :=
         Payment.pre_save now rnd2 (lateFeePayment now pm req fee payment) in
       lateFeeApplied (snd (pay now rnd1 rnd2 id req db)) = Some fee
       /\ unique_ok id p' (payments db) = true
       /\ (if 0 <? fee
           then unique_ok (new_id m1) row m1 = true
                /\ fst (pay now rnd1 rnd2 id req db)
                   = set_payments (<[new_id m1 := row]> m1) db
           else fst (pay now rnd1 rnd2 id req db) = set_payments m1 db).
Proof.
  intros Hl Hc.
  remember (pay now rnd1 rnd2 id req db) as res eqn:Hres.
  unfold pay in Hres. rewrite Hl in Hres. cbv zeta in Hres.
  destruct (PayReq.paymentMethod req) as [pm |];
    [| subst res; discriminate Hc].
  exists pm. split; [reflexivity |]. cbv zeta.
  unfold save_payment in Hres.
  destruct (Payment.validate (settled _ _ _ _ _));
    [| subst res; discriminate Hc].
  destruct (unique_ok id _ (payments db)) eqn:Hu1;
    [| subst res; discriminate Hc].
  destruct (0 <? late_fee now payment db) eqn:Hfee.
  - destruct (Payment.validate (lateFeePayment _ _ _ _ _));
      [| subst res; discriminate Hc].
    destruct (unique_ok (new_id _) _ _) eqn:Hu2;
      [| subst res; discriminate Hc].
    subst res. cbn. auto.
  - subst res. cbn. auto.
Qed.

(** After a settlement answered 200 the payment is the document the
    route assigned, as the hook left it. *)
Lemma pay_stored now rnd1 rnd2 id req db payment :
  payments db !! id = Some payment ->
  code (snd (pay now rnd1 rnd2 id req db)) = 200 ->
  exists pm,
    PayReq.paymentMethod req = Some pm
    /\ payments (fst (pay now rnd1 rnd2 id req db)) !! id
       = Some (Payment.pre_save now rnd1
                 (settled now pm req (late_fee now payment db) payment)).
Proof.
  intros Hl Hc.
  destruct (pay_ok _ _ _ _ _ _ _ Hl Hc) as (pm & Hpm & _ & _ & Hdb).
  exists pm. split; [exact Hpm |]. cbv zeta in Hdb.
  destruct (0 <? late_fee now payment db).
  - destruct Hdb as [_ ->]. cbn [payments set_payments].
    rewrite lookup_insert_ne; [apply lookup_insert_eq |].
    intros E.
    pose proof (new_id_fresh
                  (<[id := Payment.pre_save now rnd1
                             (settled now pm req (late_fee now payment db)
                                payment)]> (payments db))) as Hf.
    rewrite E, lookup_insert_eq in Hf. discriminate.
  - rewrite Hdb. cbn [payments set_payments]. apply lookup_insert_eq.
Qed.

(** C3 (as the code has it). For a settlement answered 200: the fee is
    the lease's late fee when the payment is late by more days than the
    grace period, and 0 when it is on time, within the grace period or
    without a lease; the fee is stored on the payment and reported; when
    the fee is positive exactly one document is added, the late-fee
    payment described by the route; when it is not, no document is
    added. *)
Theorem pay_late_fee now rnd1 rnd2 id req db payment :
  payments db !! id = Some payment ->
  code (snd (pay now rnd1 rnd2 id req db)) = 200 ->
  let fee := late_fee now payment db in
  let db' := fst (pay now rnd1 rnd2 id req db) in
  (forall lease,
      Payment.dueDate payment < now ->
      findById (leases db) (Payment.lease payment) = Some lease ->
      Lease.lateFee_gracePeriod lease
      < JsDate.ceil_div (now - Payment.dueDate payment) JsDate.msPerDay ->
      fee = Lease.lateFee_amount lease)
  /\ (now <= Payment.dueDate payment -> fee = 0)
  /\ (findById (leases db) (Payment.lease payment) = None -> fee = 0)
  /\ (forall lease,
        findById (leases db) (Payment.lease payment) = Some lease ->
        JsDate.ceil_div (now - Payment.dueDate payment) JsDate.msPerDay
        <= Lease.lateFee_gracePeriod lease ->
        fee = 0)
  /\ lateFeeApplied (snd (pay now rnd1 rnd2 id req db)) = Some fee
  /\ exists p',
       payments db' !! id = Some p'
       /\ Payment.lateFee p' = fee
       /\ Payment.status p' = "completed"
       /\ (0 < fee ->
           exists k row,
             payments db !! k = None
             /\ payments db' = <[k := row]> (<[id := p']> (payments db))
             /\ Payment.paymentType row = "late_fee"
             /\ Payment.status row = "completed"
             /\ Payment.amount row = fee
             /\ Payment.dueDate row = now
             /\ Payment.paidDate row = Some now
             /\ Payment.lease row = Payment.lease payment
             /\ Payment.tenant row = Payment.tenant payment
             /\ Payment.property row = Payment.property payment
             /\ Payment.transactionId row
                = Some (concat_late (PayReq.transactionId req)))
       /\ (fee <= 0 -> payments db' = <[id := p']> (payments db)).
Proof.
  intros Hl Hc fee db'.
  destruct (late_fee_cases now payment db) as (H1 & H2 & H3 & H4).
  do 4 (split; [assumption |]).
  destruct (pay_ok _ _ _ _ _ _ _ Hl Hc) as (pm & Hpm & Hfee & _ & Hdb).
  split; [exact Hfee |].
  set (p' := Payment.pre_save now rnd1 (settled now pm req fee payment)) in *.
  set (m1 := <[id := p']> (payments db)) in *.
  exists p'.
  destruct (pre_save_fields now rnd1 (settled now pm req fee payment))
    as (_ & _ & _ & _ & _ & _ & Hst & _ & _ & Hlf & _).
  fold p' in Hst, Hlf.
  assert (m1 !! new_id m1 = None) as Hfresh by apply new_id_fresh.
  assert (new_id m1 <> id) as Hne.
  { intros E. rewrite E in Hfresh. unfold m1 in Hfresh.
    rewrite lookup_insert_eq in Hfresh. discriminate. }
  fold fee in Hdb. subst db'.
  destruct (0 <? fee) eqn:Hpos.
  - destruct Hdb as [_ ->]. cbn [payments set_payments].
    split; [by rewrite lookup_insert_ne, lookup_insert_eq |].
    split; [exact Hlf |]. split; [exact Hst |]. split; [| lia].
    intros _. exists (new_id m1). eexists. split.
    { unfold m1 in Hfresh. by rewrite lookup_insert_ne in Hfresh. }
    split; [reflexivity |].
    destruct (pre_save_fields now rnd2 (lateFeePayment now pm req fee payment))
      as (-> & -> & -> & -> & -> & _ & -> & -> & -> & _ & -> & _).
    cbn. repeat split; reflexivity.
  - rewrite Hdb. cbn [payments set_payments].
    split; [by rewrite lookup_insert_eq |].
    split; [exact Hlf |]. split; [exact Hst |]. split; [lia | reflexivity].
Qed.

Lemma pay_late_fee_witness :
  lateFeeApplied
    (snd (pay Sample.jan10 "K3J9X0QPA" "Z81MMC04T" 0
            (Sample.pay_req "TXN-1" None) (Sample.db_fee 50))) = Some 50
  /\ size (payments
             (fst (pay Sample.jan10 "K3J9X0QPA" "Z81MMC04T" 0
                     (Sample.pay_req "TXN-1" None) (Sample.db_fee 50)))) = 2%nat.
Proof.
  destruct (pay_late_fee Sample.jan10 "K3J9X0QPA" "Z81MMC04T" 0%nat
              (Sample.pay_req "TXN-1" None) (Sample.db_fee 50)
              Sample.rent_january)
    as (Hfee & _ & _ & _ & Happlied & p' & _ & _ & _ & Hrow & _).
  - vm_compute; reflexivity.
  - vm_compute; reflexivity.
  - split.
    + rewrite Happlied. apply (f_equal Some).
      apply (Hfee (Sample.lease_fee 50)); vm_compute; reflexivity.
    + vm_compute; reflexivity.
Defined.

(** C3 (as the specification has it) fails when the lease's late fee is
    0, the schema's default: a payment due on 2024-01-01 and settled on
    2024-01-10, nine days late with a grace period of five, is answered
    200 and no late-fee document is added. *)
Lemma late_fee_zero_adds_no_row :
  let res :=
    pay Sample.jan10 "K3J9X0QPA" "Z81MMC04T" 0 (Sample.pay_req "TXN-1" None)
      (Sample.db_fee 0) in
  code (snd res) = 200
  /\ Payment.dueDate Sample.rent_january < Sample.jan10
  /\ JsDate.ceil_div (Sample.jan10 - Payment.dueDate Sample.rent_january)
       JsDate.msPerDay = 9
  /\ Lease.lateFee_gracePeriod (Sample.lease_fee 0) = 5
  /\ dom (payments (fst res)) = dom (payments (Sample.db_fee 0))
  /\ size (payments (fst res)) = 1%nat.
Proof. vm_compute. repeat split; reflexivity. Qed.

(** C9 (as the code has it). A settlement answered 200 leaves the
    payment [completed]; its amount is the [paidAmount] of the request
    when one is supplied and is not 0, and the stored amount when none is
    supplied or when it is 0. *)
Theorem pay_amount_override now rnd1 rnd2 id req db payment :
  payments db !! id = Some payment ->
  code (snd (pay now rnd1 rnd2 id req db)) = 200 ->
  exists p',
    payments (fst (pay now rnd1 rnd2 id req db)) !! id = Some p'
    /\ Payment.status p' = "completed"
    /\ (forall a, PayReq.paidAmount req = Some a -> a <> 0 ->
          Payment.amount p' = a)
    /\ (PayReq.paidAmount req = None \/ PayReq.paidAmount req = Some 0 ->
        Payment.amount p' = Payment.amount payment).
Proof.
  intros Hl Hc.
  destruct (pay_stored _ _ _ _ _ _ _ Hl Hc) as (pm & Hpm & Hp').
  eexists. split; [exact Hp' |].
  destruct (pre_save_fields now rnd1
              (settled now pm req (late_fee now payment db) payment))
    as (_ & _ & _ & -> & _ & _ & -> & _).
  cbn. split; [reflexivity |]. split.
  - intros a -> Ha. cbn. destruct (a =? 0) eqn:E; [lia | reflexivity].
  - intros [-> | ->]; reflexivity.
Qed.

Lemma pay_amount_override_witness :
  exists p',
    payments
      (fst (pay Sample.jan10 "K3J9X0QPA" "Z81MMC04T" 0
              (Sample.pay_req "TXN-1" (Some 900)) (Sample.db_fee 50))) !! 0%nat
    = Some p'
    /\ Payment.status p' = "completed" /\ Payment.amount p' = 900.
Proof.
  destruct (pay_amount_override Sample.jan10 "K3J9X0QPA" "Z81MMC04T" 0%nat
              (Sample.pay_req "TXN-1" (Some 900)) (Sample.db_fee 50)
              Sample.rent_january)
    as (p' & Hp' & Hst & Ha & _).
  - vm_compute; reflexivity.
  - vm_compute; reflexivity.
  - exists p'. split; [exact Hp' |]. split; [exact Hst |].
    apply Ha; [reflexivity | lia].
Defined.

(** C9 (as the specification has it) fails at 0: a request that supplies
    [paidAmount = 0] is answered 200 and the amount stays 1000. *)
Lemma paid_amount_zero_ignored :
  let req := Sample.pay_req "TXN-1" (Some 0) in
  let res := pay Sample.jan10 "K3J9X0QPA" "Z81MMC04T" 0 req (Sample.db_fee 50) in
  PayReq.paidAmount req = Some 0
  /\ code (snd res) = 200
  /\ (Payment.amount <$> payments (fst res) !! 0%nat) = Some 1000
  /\ (Payment.status <$> payments (fst res) !! 0%nat) = Some "completed".
Proof. vm_compute. repeat split; reflexivity. Qed.







(** The hook keeps a receipt number that is there. *)
Lemma pre_save_keeps now rnd p :
  truthy_str (Payment.receiptNumber p) = true ->
  Payment.receiptNumber (Payment.pre_save now rnd p) = Payment.receiptNumber p.
Proof. intros Ht. unfold Payment.pre_save. by rewrite Ht. Qed.










(** ** Receipt numbers *)

Lemma same_key_true x y :
  same_key x y = true <-> exists a, x = Some a /\ y = Some a.
Proof.
  destruct x as [a |], y as [b |]; cbn.
  - rewrite String.eqb_eq. split; [intros ->; eauto |].
    intros (c & H1 & H2). congruence.
  - split; [discriminate | intros (c & _ & H); discriminate].
  - split; [discriminate | intros (c & H & _); discriminate].
  - split; [discriminate | intros (c & H & _); discriminate].
Qed.

Lemma truthy_is_Some x : truthy_str x = true -> exists a, x = Some a.
Proof. destruct x; [eauto | discriminate]. Qed.

Lemma receipts_ok_empty : receipts_ok ∅.
Proof.
  split.
  - intros i j p q Hi. by rewrite lookup_empty in Hi.
  - intros i p Hi. by rewrite lookup_empty in Hi.
Qed.

Lemma receipts_ok_insert (m : gmap nat Payment.t) id p' :
  receipts_ok m ->
  unique_ok id p' m = true ->
  (truthy_str (Payment.receiptNumber p') = true
   <-> Payment.status p' = "completed") ->
  receipts_ok (<[id := p']> m).
Proof.
  intros [Huniq Hiff] Hu Hp'.
  unfold unique_ok in Hu. apply negb_true_iff in Hu.
  rewrite exists_doc_false in Hu.
  assert (forall k q, k <> id -> m !! k = Some q ->
            truthy_str (Payment.receiptNumber q) = true
            \/ truthy_str (Payment.receiptNumber p') = true ->
            Payment.receiptNumber q <> Payment.receiptNumber p') as Hother.
  { intros k q Hk Hq Ht E. specialize (Hu k q Hq).
    apply andb_false_iff in Hu as [Hu | Hu].
    - apply negb_false_iff, Nat.eqb_eq in Hu. contradiction.
    - apply orb_false_iff in Hu as [_ Hu].
      assert (same_key (Payment.receiptNumber q) (Payment.receiptNumber p')
              = true) as Hs; [| congruence].
      apply same_key_true.
      destruct Ht as [Ht | Ht]; apply truthy_is_Some in Ht as [a Ha];
        exists a; split; congruence. }
  split.
  - intros i j p q Hi Hj Ht E.
    destruct (decide (i = id)) as [-> | Hni];
      destruct (decide (j = id)) as [-> | Hnj]; [reflexivity | | |].
    + rewrite lookup_insert_eq in Hi. injection Hi as <-.
      rewrite lookup_insert_ne in Hj by done.
      exfalso. apply (Hother j q); auto.
    + rewrite lookup_insert_eq in Hj. injection Hj as <-.
      rewrite lookup_insert_ne in Hi by done.
      exfalso. apply (Hother i p); auto.
    + rewrite lookup_insert_ne in Hi by done.
      rewrite lookup_insert_ne in Hj by done. eauto.
  - intros i p Hi. destruct (decide (i = id)) as [-> | Hni].
    + rewrite lookup_insert_eq in Hi. injection Hi as <-. exact Hp'.
    + rewrite lookup_insert_ne in Hi by done. eauto.
Qed.

Lemma receipts_ok_subseteq (m m' : gmap nat Payment.t) :
  m' ⊆ m -> receipts_ok m -> receipts_ok m'.
Proof.
  intros Hsub [Huniq Hiff]. split.
  - intros i j p q Hi Hj. apply (Huniq i j p q); eapply lookup_weaken; eauto.
  - intros i p Hi. apply (Hiff i p). eapply lookup_weaken; eauto.
Qed.

(** The hook gives a receipt number exactly to documents that are
    [completed] and keeps a number that is there. *)
Lemma pre_save_receipt now rnd p :
  (truthy_str (Payment.receiptNumber p) = true ->
   Payment.status p = "completed") ->
  (truthy_str (Payment.receiptNumber (Payment.pre_save now rnd p)) = true
   <-> Payment.status (Payment.pre_save now rnd p) = "completed").
Proof.
  intros Hp. unfold Payment.pre_save.
  destruct (truthy_str (Payment.receiptNumber p)) eqn:Ht; cbn [negb andb].
  - split; auto.
  - destruct (String.eqb (Payment.status p) "completed") eqn:Hs.
    + apply String.eqb_eq in Hs. cbn. split; auto.
    + apply String.eqb_neq in Hs. rewrite Ht. split; [discriminate | done].
Qed.

(** One [save]: the receipt property is kept, a number that was there
    stays, and no document disappears. *)
Lemma save_payment_receipts now rnd id p (m m' : gmap nat Payment.t) :
  save_payment now rnd id p m = Some m' ->
  (truthy_str (Payment.receiptNumber p) = true ->
   Payment.status p = "completed") ->
  (forall old, m !! id = Some old ->
     truthy_str (Payment.receiptNumber old) = true ->
     Payment.receiptNumber p = Payment.receiptNumber old) ->
  (receipts_ok m -> receipts_ok m')
  /\ (forall k q, m !! k = Some q ->
        truthy_str (Payment.receiptNumber q) = true ->
        exists q', m' !! k = Some q'
          /\ Payment.receiptNumber q' = Payment.receiptNumber q)
  /\ (forall k q', m' !! k = Some q' -> k = id \/ m !! k = Some q').
Proof.
  unfold save_payment. destruct (Payment.validate p); [| discriminate].
  destruct (unique_ok id _ m) eqn:Hu; [| discriminate].
  intros [= <-] Hp Hold. split; [| split].
  - intros Hok. apply receipts_ok_insert; [exact Hok | exact Hu |].
    apply pre_save_receipt, Hp.
  - intros k q Hk Ht. destruct (decide (k = id)) as [-> | Hne].
    + eexists. rewrite lookup_insert_eq. split; [reflexivity |].
      rewrite <- (Hold q Hk Ht). apply pre_save_keeps.
      by rewrite (Hold q Hk Ht).
    + exists q. by rewrite lookup_insert_ne.
  - intros k q' Hk. destruct (decide (k = id)) as [-> | Hne]; [by left |].
    right. by rewrite lookup_insert_ne in Hk.
Qed.

(** The schedule step never stores a payment. *)
Lemma createPaymentSchedule_payments lid lease db :
  payments (createPaymentSchedule lid lease db) = payments db.
Proof.
  unfold createPaymentSchedule.
  destruct (schedule lid lease) as [| p ps] eqn:E; [reflexivity |].
  rewrite <- E, schedule_rejected; [reflexivity | by rewrite E].
Qed.

Lemma create_lease_payments req db :
  payments (fst (create_lease req db)) = payments db.
Proof.
  unfold create_lease.
  repeat match goal with
         | |- context [match ?x with _ => _ end] => destruct x; try reflexivity
         end.
  cbn [fst]. by rewrite createPaymentSchedule_payments.
Qed.

Lemma create_payment_payments now rnd req db :
  payments (fst (create_payment now rnd req db)) = payments db
  \/ exists p,
       Payment.receiptNumber p = None
       /\ save_payment now rnd (new_id (payments db)) p (payments db)
          = Some (payments (fst (create_payment now rnd req db))).
Proof.
  assert (forall lease tid pid,
             let r := store_new_payment now rnd
                        (paymentData req lease tid pid) db in
             payments (fst r) = payments db
             \/ exists p,
                  Payment.receiptNumber p = None
                  /\ save_payment now rnd (new_id (payments db)) p (payments db)
                     = Some (payments (fst r))) as Hstore.
  { intros lease tid pid. unfold store_new_payment, paymentData. cbv zeta.
    destruct (PaymentReq.amount req); [| by left].
    destruct (PaymentReq.paymentType req); [| by left].
    destruct (PaymentReq.paymentMethod req); [| by left].
    destruct (save_payment _ _ _ _ _) eqn:Hs; [| by left].
    right. eexists. split; [| exact Hs]. reflexivity. }
  unfold create_payment.
  destruct (PaymentReq.leaseId req) as [lid |].
  - destruct (leases db !! lid); [apply Hstore | by left].
  - destruct (PaymentReq.propertyId req); [| by left].
    destruct (PaymentReq.tenantId req); [apply Hstore | by left].
Qed.

Lemma pay_payments now rnd1 rnd2 id req db :
  payments (fst (pay now rnd1 rnd2 id req db)) = payments db
  \/ exists payment pm m1,
       payments db !! id = Some payment
       /\ save_payment now rnd1 id
            (settled now pm req (late_fee now payment db) payment) (payments db)
          = Some m1
       /\ (payments (fst (pay now rnd1 rnd2 id req db)) = m1
           \/ save_payment now rnd2 (new_id m1)
                (lateFeePayment now pm req (late_fee now payment db) payment) m1
              = Some (payments (fst (pay now rnd1 rnd2 id req db)))).
Proof.
  unfold pay. destruct (payments db !! id) as [payment |] eqn:Hl; [| by left].
  destruct (PayReq.paymentMethod req) as [pm |]; [| by left].
  destruct (save_payment now rnd1 id _ (payments db)) as [m1 |] eqn:H1;
    [| by left].
  right. exists payment, pm, m1. split; [reflexivity |]. split; [exact H1 |].
  cbv zeta. destruct (0 <? _); [| by left].
  destruct (save_payment now rnd2 _ _ m1) eqn:H2; [by right | by left].
Qed.

(** C4. Whatever the request, the stored payments keep the receipt
    property: no two payments share a receipt number and a payment has
    one exactly when it is [completed]; and a receipt number, once
    assigned, is the payment's number after every later request. *)
Theorem receipt_number_assigned_once r db :
  receipts_ok (payments db) ->
  receipts_ok (payments (fst (handle r db)))
  /\ forall id p p',
       payments db !! id = Some p ->
       truthy_str (Payment.receiptNumber p) = true ->
       payments (fst (handle r db)) !! id = Some p' ->
       Payment.receiptNumber p' = Payment.receiptNumber p.
Proof.
  intros Hok.
  assert (forall m' : gmap nat Payment.t, m' ⊆ payments db ->
            receipts_ok m'
            /\ forall id p p', payments db !! id = Some p ->
                 truthy_str (Payment.receiptNumber p) = true ->
                 m' !! id = Some p' ->
                 Payment.receiptNumber p' = Payment.receiptNumber p) as Hsub.
  { intros m' Hs. split; [by apply (receipts_ok_subseteq (payments db)) |].
    intros id p p' Hp _ Hp'. pose proof (lookup_weaken _ _ _ _ Hp' Hs).
    congruence. }
  destruct r as [req | id | id | id | now rnd req | now rnd1 rnd2 id req | id];
    cbn [handle].
  - rewrite create_lease_payments. by apply Hsub.
  - unfold activate. destruct (leases db !! id); [| by apply Hsub].
    destruct (negb _); by apply Hsub.
  - unfold terminate. destruct (leases db !! id); [| by apply Hsub].
    destruct (negb _); by apply Hsub.
  - unfold delete_lease. destruct (leases db !! id); [| by apply Hsub].
    apply Hsub. cbn. apply map_filter_subseteq.
  - destruct (create_payment_payments now rnd req db)
      as [-> | (p & Hnone & Hsave)]; [by apply Hsub |].
    destruct (save_payment_receipts _ _ _ _ _ _ Hsave) as (H1 & H2 & _).
    { rewrite Hnone. discriminate. }
    { intros old Hold. by rewrite new_id_fresh in Hold. }
    split; [by apply H1 |].
    intros id p0 p' Hp Ht Hp'. destruct (H2 id p0 Hp Ht) as (q' & Hq' & E).
    congruence.
  - destruct (pay_payments now rnd1 rnd2 id req db)
      as [-> | (payment & pm & m1 & Hl & Hs1 & Hrest)]; [by apply Hsub |].
    destruct (save_payment_receipts _ _ _ _ _ _ Hs1) as (H1 & H2 & _).
    { reflexivity. }
    { intros old Hold _. cbn. congruence. }
    destruct Hrest as [-> | Hs2].
    + split; [by apply H1 |].
      intros k p0 p' Hp Ht Hp'. destruct (H2 k p0 Hp Ht) as (q' & Hq' & E).
      congruence.
    + destruct (save_payment_receipts _ _ _ _ _ _ Hs2) as (H3 & H4 & _).
      { discriminate. }
      { intros old Hold. by rewrite new_id_fresh in Hold. }
      split; [by apply H3, H1 |].
      intros k p0 p' Hp Ht Hp'. destruct (H2 k p0 Hp Ht) as (q1 & Hq1 & E1).
      destruct (H4 k q1 Hq1) as (q2 & Hq2 & E2); [by rewrite E1 |].
      congruence.
  - unfold delete_payment. destruct (payments db !! id); [| by apply Hsub].
    apply Hsub. cbn. apply delete_subseteq.
Qed.

Lemma receipt_number_assigned_once_witness :
  receipts_ok
    (payments
       (fst (handle
               (Pay Sample.jan10 "K3J9X0QPA" "Z81MMC04T" 0
                  (Sample.pay_req "TXN-1" None))
               (Sample.db_fee 50)))).
Proof.
  apply (receipt_number_assigned_once
           (Pay Sample.jan10 "K3J9X0QPA" "Z81MMC04T" 0
              (Sample.pay_req "TXN-1" None))
           (Sample.db_fee 50)).
  change (payments (Sample.db_fee 50))
    with (<[0%nat := Sample.rent_january]> (∅ : gmap nat Payment.t)).
  apply receipts_ok_insert.
  - exact receipts_ok_empty.
  - vm_compute; reflexivity.
  - split; discriminate.
Defined.

(** ** The payment schedule *)

(** The batch built for the lease of the specification's example: five
    rent payments of 1000, pending and recurring, due on the first of
    February to June 2024. *)
Lemma schedule_example :
  map JsDate.civil (schedule_dates Sample.lease_example)
  = [(2024, 1, 1); (2024, 2, 1); (2024, 3, 1); (2024, 4, 1); (2024, 5, 1)]
  /\ Forall (fun p =>
               Payment.amount p = 1000 /\ Payment.paymentType p = "rent"
               /\ Payment.status p = "pending"
               /\ Payment.isRecurring p = true)
       (schedule 0 Sample.lease_example).
Proof.
  split; [vm_compute; reflexivity |].
  unfold schedule. apply Forall_map, Forall_forall. intros d _.
  cbn. repeat split; reflexivity.
Qed.

(** C1 at its failing inputs.  With the rent due on the 31st, the lease
    from 2024-01-15 to 2024-06-15 gets the due dates 2024-01-31,
    2024-03-02, 2024-04-02, 2024-05-02 and 2024-06-02: February is
    skipped and no date after the first is on the 31st.  The lease from
    2023-01-01 to 2023-03-02 gets the single due date 2023-01-31.  And
    the batch of the specification's own example is refused by
    [insertMany], so that creating that lease stores no payment. *)
Theorem schedule_due31_rolls_over :
  map JsDate.civil (schedule_dates Sample.lease_due31)
  = [(2024, 0, 31); (2024, 2, 2); (2024, 3, 2); (2024, 4, 2); (2024, 5, 2)]
  /\ map JsDate.civil (schedule_dates Sample.lease_short31) = [(2023, 0, 31)]
  /\ length (schedule 0 Sample.lease_example) = 5%nat
  /\ insertMany (schedule 0 Sample.lease_example) ∅ = None
  /\ payments (fst (create_lease Sample.req_example Sample.db0)) = ∅.
Proof. vm_compute. repeat split; reflexivity. Qed.
(** * Further properties *)

(** ** Zones with a constant offset *)

Lemma constant_fixed c : Zone.constant c (Zone.fixed c).
Proof. intros x. split; reflexivity. Qed.

Section ConstantZone.
Variables (z : Zone.t) (c : Z).
Hypothesis Hz : Zone.constant c z.

Lemma LocalTime_const x : Zone.LocalTime z x = x + c.
Proof. unfold Zone.LocalTime. by destruct (Hz x) as [-> _]. Qed.

Lemma UTC_const x : Zone.UTC z x = x - c.
Proof. unfold Zone.UTC. by destruct (Hz x) as [_ ->]. Qed.

Lemma setDate_const t dt :
  Zoned.setDate z t dt = JsDate.setDate (t + c) dt - c.
Proof. unfold Zoned.setDate. by rewrite UTC_const, LocalTime_const. Qed.

Lemma setMonth_const t :
  Zoned.setMonth z t (Zoned.getMonth z t + 1)
  = JsDate.setMonth (t + c) (JsDate.getMonth (t + c) + 1) - c.
Proof.
  unfold Zoned.setMonth, Zoned.getMonth.
  by rewrite UTC_const, LocalTime_const.
Qed.

(** In such a zone the schedule is the schedule of the local time
    values, moved back by the offset. *)
Lemma first_due_const lease :
  first_due_in z lease = first_due (local_lease c lease) - c.
Proof.
  unfold first_due_in, first_due. cbv zeta.
  cbn [local_lease Lease.startDate Lease.paymentDueDate].
  rewrite setMonth_const, setDate_const.
  set (s := Lease.startDate lease). set (cur := JsDate.setDate (s + c) _).
  replace (cur - c + c) with cur by lia.
  destruct (cur - c <? s) eqn:E1, (cur <? s + c) eqn:E2; lia.
Qed.

Lemma schedule_loop_const n : forall cur e,
  schedule_loop_in z n cur e
  = option_map (map (fun d => d - c)) (schedule_loop n (cur + c) (e + c)).
Proof.
  induction n as [| n IH]; intros cur e; [reflexivity |].
  rewrite schedule_loop_S. cbn [schedule_loop_in].
  rewrite setMonth_const, IH.
  replace (JsDate.setMonth (cur + c) (JsDate.getMonth (cur + c) + 1) - c + c)
    with (JsDate.setMonth (cur + c) (JsDate.getMonth (cur + c) + 1)) by lia.
  destruct (cur <=? e) eqn:E1, (cur + c <=? e + c) eqn:E2; try lia;
    [| reflexivity].
  destruct (schedule_loop n _ _); cbn; [| reflexivity].
  do 2 f_equal. lia.
Qed.

Lemma schedule_fuel_le cur e :
  (schedule_fuel (cur + c) (e + c) <= schedule_fuel_in cur e)%nat.
Proof.
  unfold schedule_fuel, schedule_fuel_in.
  replace (e + c - (cur + c)) with (e - cur) by lia.
  apply Nat.add_le_mono_r.
  destruct (Z.le_gt_cases 0 (e - cur)) as [Hpos | Hneg].
  - apply Z2Nat.inj_le.
    + apply Z.div_pos; [exact Hpos | reflexivity].
    + apply Z.div_pos; [exact Hpos | reflexivity].
    + apply Z.div_le_compat_l; [exact Hpos |]. unfold JsDate.msPerDay. lia.
  - assert ((e - cur) / (28 * JsDate.msPerDay) < 0) as Hn.
    { apply Z.div_lt_upper_bound; [reflexivity | lia]. }
    lia.
Qed.

Lemma schedule_dates_const lease :
  schedule_loop_in z
    (schedule_fuel_in (first_due_in z lease) (Lease.endDate lease))
    (first_due_in z lease) (Lease.endDate lease)
  = Some (schedule_dates_in z lease)
  /\ schedule_dates_in z lease
     = map (fun d => d - c) (schedule_dates (local_lease c lease)).
Proof.
  unfold schedule_dates_in. rewrite schedule_loop_const.
  pose proof (schedule_dates_loop (local_lease c lease)) as Hl.
  pose proof (schedule_fuel_le (first_due_in z lease) (Lease.endDate lease))
    as Hfuel.
  rewrite first_due_const in *.
  replace (first_due (local_lease c lease) - c + c)
    with (first_due (local_lease c lease)) in * by lia.
  change (Lease.endDate (local_lease c lease)) with (Lease.endDate lease + c)
    in Hl.
  by rewrite (schedule_loop_more _ _ _ _ _ Hl Hfuel).
Qed.
End ConstantZone.

(** At offset 0 the schedule is the one of the route. *)
Lemma schedule_dates_utc lease :
  schedule_dates_in (Zone.fixed 0) lease = schedule_dates lease.
Proof.
  destruct (schedule_dates_const (Zone.fixed 0) 0 (constant_fixed 0) lease)
    as [_ ->].
  replace (local_lease 0 lease) with lease.
  - rewrite <- (map_id (schedule_dates lease)) at 2.
    apply map_ext. intros d. lia.
  - destruct lease. unfold local_lease. cbn. f_equal; lia.
Qed.

(** ** The schedule loop in any zone *)

Lemma schedule_loop_in_S z n cur e :
  schedule_loop_in z (S n) cur e =
  if cur <=? e
  then option_map (cons cur)
         (schedule_loop_in z n
            (Zoned.setMonth z cur (Zoned.getMonth z cur + 1)) e)
  else Some [].
Proof. reflexivity. Qed.

(** What the loop pushes: the first candidate first, then each date
    moved on from the one before, none after the end, and it stops only
    when the next date is after the end. *)
Lemma schedule_loop_in_shape z fuel : forall cur e l,
  schedule_loop_in z fuel cur e = Some l ->
  head l = (if cur <=? e then Some cur else None)
  /\ stepped z l
  /\ Forall (fun d => d <= e) l
  /\ match last l with
     | Some d => e < Zoned.setMonth z d (Zoned.getMonth z d + 1)
     | None => e < cur
     end.
Proof.
  induction fuel as [| n IH]; intros cur e l H; [discriminate |].
  rewrite schedule_loop_in_S in H.
  destruct (cur <=? e) eqn:Hle.
  - destruct (schedule_loop_in z n _ e) as [l' |] eqn:Hn; [| discriminate].
    injection H as <-. destruct (IH _ _ _ Hn) as (Hhd & Hst & Hall & Hlast).
    split; [reflexivity |]. split; [| split].
    + intros [| k] a b Ha Hb.
      * injection Ha as <-.
        change ((cur :: l') !! 1%nat) with (l' !! 0%nat) in Hb.
        rewrite <- head_lookup, Hhd in Hb. destruct (_ <=? e) in Hb; [| discriminate].
        by injection Hb as <-.
      * apply (Hst k a b Ha Hb).
    + constructor; [lia | exact Hall].
    + destruct l' as [| b rest].
      * cbn in Hhd. destruct (_ <=? e) eqn:E in Hhd; [discriminate |].
        cbn. cbn in Hlast. exact Hlast.
      * rewrite last_cons_cons.
        destruct (last (b :: rest)) eqn:E; [exact Hlast |].
        by apply last_None in E.
  - injection H as <-. split; [reflexivity |]. split; [| split].
    + intros k a b Ha. by rewrite lookup_nil in Ha.
    + constructor.
    + cbn. lia.
Qed.

Section BoundedZone.
Variable z : Zone.t.
Hypothesis Hz : Zone.bounded z.

(** A turn of the loop moves the date on by 26 to 33 days. *)
Lemma setMonth_next_in t :
  t + 26 * JsDate.msPerDay
  <= Zoned.setMonth z t (Zoned.getMonth z t + 1)
  <= t + 33 * JsDate.msPerDay.
Proof.
  unfold Zoned.setMonth, Zoned.getMonth, Zone.UTC, Zone.LocalTime.
  pose proof (setMonth_next (t + Zone.tza_utc z t)) as Hs.
  unfold JsDate.getMonth in Hs.
  destruct (Hz t) as [Hu _].
  destruct (Hz (JsDate.setMonth (t + Zone.tza_utc z t)
                  (JsDate.MonthFromTime (t + Zone.tza_utc z t) + 1)))
    as [_ Hl].
  unfold JsDate.msPerDay in *. lia.
Qed.

Lemma schedule_loop_in_fuel n : forall cur e,
  e - cur < 26 * JsDate.msPerDay * Z.of_nat n ->
  schedule_loop_in z (S n) cur e <> None.
Proof.
  induction n as [| n IH]; intros cur e Hlt.
  - rewrite schedule_loop_in_S.
    destruct (cur <=? e) eqn:Hle; [lia | discriminate].
  - rewrite schedule_loop_in_S.
    destruct (cur <=? e) eqn:Hle; [| discriminate].
    pose proof (setMonth_next_in cur) as Hs.
    specialize (IH (Zoned.setMonth z cur (Zoned.getMonth z cur + 1)) e).
    destruct (schedule_loop_in z (S n) _ e); [discriminate |].
    exfalso. apply IH; [| reflexivity]. unfold JsDate.msPerDay in *. lia.
Qed.

(** The iteration bound of the loop is never reached. *)
Lemma schedule_dates_in_loop lease :
  schedule_loop_in z
    (schedule_fuel_in (first_due_in z lease) (Lease.endDate lease))
    (first_due_in z lease) (Lease.endDate lease)
  = Some (schedule_dates_in z lease).
Proof.
  unfold schedule_dates_in.
  set (cur := first_due_in z lease). set (e := Lease.endDate lease).
  assert (schedule_loop_in z (schedule_fuel_in cur e) cur e <> None) as H.
  { unfold schedule_fuel_in.
    replace (Z.to_nat ((e - cur) / (26 * JsDate.msPerDay)) + 2)%nat
      with (S (S (Z.to_nat ((e - cur) / (26 * JsDate.msPerDay))))) by lia.
    apply schedule_loop_in_fuel. unfold JsDate.msPerDay.
    Z.div_mod_to_equations; lia. }
  by destruct (schedule_loop_in z _ cur e).
Qed.

(** Neighbouring due dates are 26 to 33 days apart. *)
Lemma stepped_apart l k a b :
  stepped z l -> l !! k = Some a -> l !! S k = Some b ->
  a + 26 * JsDate.msPerDay <= b <= a + 33 * JsDate.msPerDay.
Proof. intros Hst Ha Hb. rewrite (Hst k a b Ha Hb). apply setMonth_next_in. Qed.
End BoundedZone.

(** ** The schedule of a lease *)

Lemma spaced_shift c l : spaced l -> spaced (map (fun d => d - c) l).
Proof.
  induction l as [| a [| b rest] IH]; [done | done |].
  intros [Hab Hsp]. cbn [map spaced]. split; [lia |]. apply (IH Hsp).
Qed.

(** The bounds of the schedule when local time is UTC. *)
Lemma schedule_dates_bounds lease :
  1 <= Lease.paymentDueDate lease <= 31 ->
  Forall (fun d => Lease.startDate lease <= d <= Lease.endDate lease)
    (schedule_dates lease)
  /\ spaced (schedule_dates lease)
  /\ Lease.startDate lease <= first_due lease
     <= Lease.startDate lease + 30 * JsDate.msPerDay.
Proof.
  intros Hd. pose proof (first_due_bounds lease Hd) as Hf.
  pose proof (schedule_dates_loop lease) as Hl.
  destruct (schedule_loop_bounds _ _ _ _ Hl) as (Hall & Hsp & Hhd).
  split; [| split; [exact Hsp | exact Hf]].
  eapply Forall_impl; [exact Hall |]. cbn. intros d Hr. lia.
Qed.

(** X1. On a server whose zone has a constant offset from UTC, for a due
    day of 1 to 31: every due date of the schedule lies between the
    start and the end of the lease; neighbouring due dates are 28 to 31
    days apart; the first candidate is on or after the start and at most
    30 days after it; the schedule starts with the first candidate, or
    is empty when that is after the end; every later due date is the one
    before it moved on by [setMonth(getMonth() + 1)]; and the loop stops
    only when the date one month after the last due date is after the
    end. *)
Theorem schedule_dates_within_lease z c lease :
  Zone.constant c z ->
  1 <= Lease.paymentDueDate lease <= 31 ->
  Forall (fun d => Lease.startDate lease <= d <= Lease.endDate lease)
    (schedule_dates_in z lease)
  /\ spaced (schedule_dates_in z lease)
  /\ Lease.startDate lease <= first_due_in z lease
     <= Lease.startDate lease + 30 * JsDate.msPerDay
  /\ head (schedule_dates_in z lease)
     = (if first_due_in z lease <=? Lease.endDate lease
        then Some (first_due_in z lease) else None)
  /\ stepped z (schedule_dates_in z lease)
  /\ (schedule_dates_in z lease = [] <->
      Lease.endDate lease < first_due_in z lease)
  /\ match last (schedule_dates_in z lease) with
     | Some d =>
         Lease.endDate lease < Zoned.setMonth z d (Zoned.getMonth z d + 1)
     | None => Lease.endDate lease < first_due_in z lease
     end.
Proof.
  intros Hz Hd.
  destruct (schedule_dates_const z c Hz lease) as [Hloop Hmap].
  destruct (schedule_loop_in_shape _ _ _ _ _ Hloop) as (Hhd & Hst & _ & Hlast).
  destruct (schedule_dates_bounds (local_lease c lease) Hd) as (Hall & Hsp & Hf).
  cbn [local_lease Lease.startDate Lease.endDate] in Hall, Hf.
  pose proof (first_due_const z c Hz lease) as Hfd.
  split; [| split; [| split; [| split; [exact Hhd |];
                              split; [exact Hst |]; split; [| exact Hlast]]]].
  - rewrite Hmap. apply Forall_map.
    eapply Forall_impl; [exact Hall |]. cbn. intros d Hr. lia.
  - rewrite Hmap. apply spaced_shift, Hsp.
  - lia.
  - destruct (first_due_in z lease <=? Lease.endDate lease) eqn:E.
    + split; [intros E'; rewrite E' in Hhd; discriminate | lia].
    + split; [lia |]. intros _.
      by destruct (schedule_dates_in z lease).
Qed.

Lemma schedule_dates_within_lease_witness :
  Forall (fun d =>
            Lease.startDate Sample.lease_due31 <= d
            <= Lease.endDate Sample.lease_due31)
    (schedule_dates_in est Sample.lease_due31)
  /\ spaced (schedule_dates_in est Sample.lease_due31).
Proof.
  destruct (schedule_dates_within_lease est (-18000000) Sample.lease_due31)
    as (H1 & H2 & _).
  - apply constant_fixed.
  - vm_compute. split; discriminate.
  - split; [exact H1 | exact H2].
Defined.

Lemma first_due_fields lease :
  1 <= Lease.paymentDueDate lease <= 28 ->
  JsDate.DateFromTime (first_due lease) = Lease.paymentDueDate lease
  /\ month_index (first_due lease)
     = month_index (Lease.startDate lease)
       + (if Lease.paymentDueDate lease
             <? JsDate.DateFromTime (Lease.startDate lease)
          then 1 else 0)
  /\ JsDate.TimeWithinDay (first_due lease)
     = JsDate.TimeWithinDay (Lease.startDate lease).
Proof.
  intros Hd. unfold first_due. cbv zeta.
  set (s := Lease.startDate lease). set (dd := Lease.paymentDueDate lease) in *.
  pose proof (setDate_shift s dd) as Hshift.
  pose proof (days_in_month_ge (JsDate.InLeapYear (JsDate.YearFromTime s)) _
                (MonthFromTime_range s)) as Hdim.
  destruct (civil_setDate s dd ltac:(lia)) as [Hc Ht].
  unfold JsDate.civil in Hc. injection Hc as Hy Hm Hdt.
  assert (month_index (JsDate.setDate s dd) = month_index s) as Hmi
      by (unfold month_index; congruence).
  destruct (JsDate.setDate s dd <? s) eqn:Hlt.
  - replace (dd <? JsDate.DateFromTime s) with true
      by (unfold JsDate.msPerDay in *; lia).
    destruct (month_index_next (JsDate.setDate s dd)) as (H1 & H2 & H3);
      [lia |].
    rewrite H1, H2, H3. auto with lia.
  - replace (dd <? JsDate.DateFromTime s) with false
      by (unfold JsDate.msPerDay in *; lia).
    repeat split; [assumption | lia | assumption].
Qed.

(** The due day of the schedule when local time is UTC. *)
Lemma schedule_dates_fields lease :
  1 <= Lease.paymentDueDate lease <= 28 ->
  forall k d,
    schedule_dates lease !! k = Some d ->
    JsDate.DateFromTime d = Lease.paymentDueDate lease
    /\ month_index d = month_index (first_due lease) + Z.of_nat k
    /\ JsDate.TimeWithinDay d = JsDate.TimeWithinDay (Lease.startDate lease).
Proof.
  intros Hd k d Hk. destruct (first_due_fields lease Hd) as (Hdt & Hmi & Htod).
  assert (JsDate.DateFromTime (first_due lease) <= 28) as Hle by lia.
  destruct (schedule_loop_due_day _ _ _ _ Hle
              (schedule_dates_loop lease) k d Hk) as (E1 & E2 & E3).
  repeat split; congruence.
Qed.

(** X2. On a server whose zone has a constant offset from UTC, for a due
    day of 1 to 28, in local time: the k-th due date of the schedule is
    on the due day, k calendar months after the month of the first due
    date, at the time of day of the start date; the first due date is in
    the month of the start date, or in the next one when the due day is
    before the day of the start date. *)
Theorem schedule_dates_on_due_day z c lease :
  Zone.constant c z ->
  1 <= Lease.paymentDueDate lease <= 28 ->
  (forall k d,
      schedule_dates_in z lease !! k = Some d ->
      Zoned.getDate z d = Lease.paymentDueDate lease
      /\ month_index (Zone.LocalTime z d)
         = month_index (Zone.LocalTime z (first_due_in z lease)) + Z.of_nat k
      /\ JsDate.TimeWithinDay (Zone.LocalTime z d)
         = JsDate.TimeWithinDay (Zone.LocalTime z (Lease.startDate lease)))
  /\ month_index (Zone.LocalTime z (first_due_in z lease))
     = month_index (Zone.LocalTime z (Lease.startDate lease))
       + (if Lease.paymentDueDate lease
             <? Zoned.getDate z (Lease.startDate lease)
          then 1 else 0).
Proof.
  intros Hz Hd.
  destruct (schedule_dates_const z c Hz lease) as [_ Hmap].
  destruct (first_due_fields (local_lease c lease) Hd) as (_ & Hmi & _).
  cbn [local_lease Lease.startDate Lease.paymentDueDate] in Hmi.
  unfold Zoned.getDate. rewrite !(LocalTime_const z c Hz).
  rewrite (first_due_const z c Hz).
  replace (first_due (local_lease c lease) - c + c)
    with (first_due (local_lease c lease)) by lia.
  split; [| exact Hmi].
  intros k d Hk. rewrite Hmap, list_lookup_fmap in Hk.
  destruct (schedule_dates (local_lease c lease) !! k) as [d' |] eqn:Hk';
    [| discriminate].
  injection Hk as <-. rewrite (LocalTime_const z c Hz).
  replace (d' - c + c) with d' by lia.
  apply (schedule_dates_fields (local_lease c lease) Hd k d' Hk').
Qed.

Lemma schedule_dates_on_due_day_witness :
  Forall (fun d => Zoned.getDate est d = 1)
    (schedule_dates_in est Sample.lease_example).
Proof.
  apply Forall_lookup. intros k d Hk.
  destruct (schedule_dates_on_due_day est (-18000000) Sample.lease_example)
    as [H _].
  - apply constant_fixed.
  - vm_compute. split; discriminate.
  - apply (H k d Hk).
Defined.

(** X19. On a server in any zone whose offset from UTC stays within a
    day, daylight saving included: the loop of the schedule ends; the
    schedule starts with the first candidate, or is empty when that is
    after the end; every later due date is the one before it moved on by
    [setMonth(getMonth() + 1)], which is 26 to 33 days later; no due
    date is after the end; and the loop stops only when the date one
    month after the last due date is after the end. *)
Theorem schedule_dates_any_zone z lease :
  Zone.bounded z ->
  schedule_loop_in z
    (schedule_fuel_in (first_due_in z lease) (Lease.endDate lease))
    (first_due_in z lease) (Lease.endDate lease)
  = Some (schedule_dates_in z lease)
  /\ head (schedule_dates_in z lease)
     = (if first_due_in z lease <=? Lease.endDate lease
        then Some (first_due_in z lease) else None)
  /\ stepped z (schedule_dates_in z lease)
  /\ (forall k a b,
        schedule_dates_in z lease !! k = Some a ->
        schedule_dates_in z lease !! S k = Some b ->
        a + 26 * JsDate.msPerDay <= b <= a + 33 * JsDate.msPerDay)
  /\ Forall (fun d => d <= Lease.endDate lease) (schedule_dates_in z lease)
  /\ match last (schedule_dates_in z lease) with
     | Some d =>
         Lease.endDate lease < Zoned.setMonth z d (Zoned.getMonth z d + 1)
     | None => Lease.endDate lease < first_due_in z lease
     end.
Proof.
  intros Hz. pose proof (schedule_dates_in_loop z Hz lease) as Hloop.
  destruct (schedule_loop_in_shape _ _ _ _ _ Hloop) as (Hhd & Hst & Hall & Hlast).
  split; [exact Hloop |]. split; [exact Hhd |]. split; [exact Hst |].
  split; [| split; [exact Hall | exact Hlast]].
  intros k a b. apply (stepped_apart z Hz), Hst.
Qed.

Lemma new_york_bounded : Zone.bounded new_york_2024.
Proof.
  intros x. unfold new_york_2024. cbn [Zone.tza_utc Zone.tza_local].
  unfold JsDate.msPerDay. split.
  - destruct (_ && _); lia.
  - destruct (_ && _); lia.
Qed.

(** The schedule of the example lease in New York: 19:00 local time on
    the first of February to June, which is midnight UTC of the 2nd in
    winter and 23:00 UTC of the 1st in summer. *)
Lemma schedule_new_york :
  schedule_dates_in new_york_2024 Sample.lease_example
  = [JsDate.utc 2024 1 2; JsDate.utc 2024 2 2;
     JsDate.utc 2024 3 1 + 23 * 3600000; JsDate.utc 2024 4 1 + 23 * 3600000;
     JsDate.utc 2024 5 1 + 23 * 3600000].
Proof. vm_compute. reflexivity. Qed.

Lemma schedule_dates_any_zone_witness :
  stepped new_york_2024 (schedule_dates_in new_york_2024 Sample.lease_example)
  /\ Forall (fun d => d <= Lease.endDate Sample.lease_example)
       (schedule_dates_in new_york_2024 Sample.lease_example).
Proof.
  destruct (schedule_dates_any_zone new_york_2024 Sample.lease_example
              new_york_bounded) as (_ & _ & H1 & _ & H2 & _).
  split; [exact H1 | exact H2].
Defined.

(** X3. Creating a lease never stores a payment: a batch that is not
    empty, which is the case whenever the first due date is not after
    the end date, is refused by [insertMany] because of its payment
    method, and the refusal is swallowed by [createPaymentSchedule]. *)
Theorem create_lease_stores_no_payment req db :
  payments (fst (create_lease req db)) = payments db
  /\ forall lid lease m,
       first_due lease <= Lease.endDate lease ->
       schedule lid lease <> []
       /\ insertMany (schedule lid lease) m = None
       /\ createPaymentSchedule lid lease db = db.
Proof.
  split; [apply create_lease_payments |].
  intros lid lease m Hle.
  assert (schedule lid lease <> []) as Hne.
  { unfold schedule. pose proof (schedule_dates_loop lease) as Hl.
    destruct (schedule_loop_bounds _ _ _ _ Hl) as (_ & _ & Hhd).
    replace (_ <=? _) with true in Hhd by lia.
    destruct (schedule_dates lease); [discriminate | cbn; discriminate]. }
  split; [exact Hne |]. split; [by apply schedule_rejected |].
  unfold createPaymentSchedule. by rewrite schedule_rejected.
Qed.

Lemma create_lease_stores_no_payment_witness :
  createPaymentSchedule 0 Sample.lease_example Sample.db0 = Sample.db0.
Proof.
  destruct (create_lease_stores_no_payment Sample.req_example Sample.db0)
    as [_ H].
  destruct (H 0%nat Sample.lease_example ∅) as (_ & _ & Hc).
  - vm_compute; discriminate.
  - exact Hc.
Defined.

(** ** Lease routes *)





(** X6. With a stored property that satisfies its schema, every answer
    of the create route other than 201 leaves the database unchanged,
    and the route answers 201, 400 or 500 only. *)
Theorem create_lease_rejections_store_nothing req db :
  (code (snd (create_lease req db)) = 201
   \/ code (snd (create_lease req db)) = 400
   \/ code (snd (create_lease req db)) = 500)
  /\ (forall pid property,
        LeaseReq.propertyId req = Some pid ->
        properties db !! pid = Some property ->
        Property_schema.validate property = true ->
        code (snd (create_lease req db)) <> 201 ->
        fst (create_lease req db) = db)
  /\ (LeaseReq.propertyId req = None \/ LeaseReq.tenantId req = None ->
      create_lease req db = (db, respond 400 "Property not found")
      \/ create_lease req db = (db, respond 400 "Invalid tenant")).
Proof.
  split; [| split].
  - unfold create_lease.
    repeat match goal with
           | |- context [match ?x with _ => _ end] => destruct x; cbn; auto
           end.
  - intros pid property Hp Hpl Hvp. unfold create_lease. rewrite Hp, Hpl.
    destruct (LeaseReq.tenantId req) as [tid |]; [| reflexivity].
    destruct (users db !! tid) as [tenant |]; [| reflexivity].
    destruct (negb (String.eqb (User.role tenant) "tenant")); [reflexivity |].
    destruct (exists_doc _ (leases db)); [reflexivity |].
    destruct (negb (Lease.validate _)); [reflexivity |].
    replace (Property_schema.validate _) with true; [cbn; congruence |].
    unfold Property_schema.validate in *. cbn in *.
    apply andb_true_iff in Hvp as [Hvp _]. by rewrite Hvp.
  - unfold create_lease. intros [-> | Ht]; [by left |].
    destruct (LeaseReq.propertyId req) as [pid |]; [| by left].
    destruct (properties db !! pid); [| by left].
    rewrite Ht. by right.
Qed.

Lemma create_lease_rejections_store_nothing_witness :
  fst (create_lease
         (Sample.lease_req 1 (JsDate.utc 2024 0 15) (JsDate.utc 2024 5 15)
            (Some 40)) Sample.db0) = Sample.db0.
Proof.
  destruct (create_lease_rejections_store_nothing
              (Sample.lease_req 1 (JsDate.utc 2024 0 15)
                 (JsDate.utc 2024 5 15) (Some 40)) Sample.db0)
    as (_ & H & _).
  apply (H 1%nat Sample.house).
  - reflexivity.
  - vm_compute; reflexivity.
  - vm_compute; reflexivity.
  - vm_compute; discriminate.
Defined.

(** ** Payment routes *)

Lemma save_new_payment now rnd p (m m' : gmap nat Payment.t) :
  save_payment now rnd (new_id m) p m = Some m' ->
  m' = <[new_id m := Payment.pre_save now rnd p]> m
  /\ Payment.validate p = true.
Proof.
  unfold save_payment. destruct (Payment.validate p); [| discriminate].
  destruct (unique_ok _ _ _); [| discriminate]. intros [= <-]. auto.
Qed.

Lemma validate_pre_save now rnd p :
  Payment.validate (Payment.pre_save now rnd p) = Payment.validate p.
Proof. unfold Payment.pre_save. by destruct (_ && _). Qed.

(** X7. The create-payment route answers 400 exactly when a lease id is
    given that no lease has, or when no lease id is given and the
    property id or the tenant id is missing; an answer other than 201
    stores nothing; an answer of 201 has added one document under a new
    id, valid for the schema, with the tenant and the property of the
    lease when a lease id was given (whatever the body says) and those
    of the body otherwise, and with a receipt number exactly when it was
    created [completed]. *)
Theorem create_payment_outcomes now rnd req db :
  let res := create_payment now rnd req db in
  (code (snd res) = 400 <->
   (exists lid, PaymentReq.leaseId req = Some lid /\ leases db !! lid = None)
   \/ (PaymentReq.leaseId req = None
       /\ (PaymentReq.propertyId req = None
           \/ PaymentReq.tenantId req = None)))
  /\ (code (snd res) <> 201 -> fst res = db)
  /\ (code (snd res) = 201 ->
      exists p,
        fst res = set_payments (<[new_id (payments db) := p]> (payments db)) db
        /\ payments db !! new_id (payments db) = None
        /\ Payment.validate p = true
        /\ Some (Payment.amount p) = PaymentReq.amount req
        /\ Payment.dueDate p = PaymentReq.dueDate req
        /\ Payment.status p = default "pending" (PaymentReq.status req)
        /\ Payment.lease p = PaymentReq.leaseId req
        /\ (forall lid lease,
              PaymentReq.leaseId req = Some lid ->
              leases db !! lid = Some lease ->
              Payment.tenant p = Lease.tenant lease
              /\ Payment.property p = Lease.property lease)
        /\ (PaymentReq.leaseId req = None ->
            Some (Payment.tenant p) = PaymentReq.tenantId req
            /\ Some (Payment.property p) = PaymentReq.propertyId req)
        /\ (truthy_str (Payment.receiptNumber p) = true
            <-> Payment.status p = "completed")).
Proof.
  assert (forall lease tid pid,
             let r := store_new_payment now rnd
                        (paymentData req lease tid pid) db in
             code (snd r) <> 400
             /\ (code (snd r) <> 201 -> fst r = db)
             /\ (code (snd r) = 201 ->
                 exists p,
                   fst r = set_payments
                             (<[new_id (payments db) := p]> (payments db)) db
                   /\ payments db !! new_id (payments db) = None
                   /\ Payment.validate p = true
                   /\ Some (Payment.amount p) = PaymentReq.amount req
                   /\ Payment.dueDate p = PaymentReq.dueDate req
                   /\ Payment.status p = default "pending" (PaymentReq.status req)
                   /\ Payment.lease p = lease
                   /\ Payment.tenant p = tid /\ Payment.property p = pid
                   /\ (truthy_str (Payment.receiptNumber p) = true
                       <-> Payment.status p = "completed"))) as Hstore.
  { intros lease tid pid. unfold store_new_payment, paymentData. cbv zeta.
    destruct (PaymentReq.amount req) as [a |];
      [| cbn; repeat split; congruence].
    destruct (PaymentReq.paymentType req) as [ty |];
      [| cbn; repeat split; congruence].
    destruct (PaymentReq.paymentMethod req) as [pm |];
      [| cbn; repeat split; congruence].
    destruct (save_payment _ _ _ _ _) as [m' |] eqn:Hs;
      [| cbn; repeat split; congruence].
    cbn [fst snd code respond]. split; [discriminate |].
    split; [congruence |]. intros _.
    destruct (save_new_payment _ _ _ _ _ Hs) as [-> Hv].
    eexists. split; [reflexivity |]. split; [apply new_id_fresh |].
    match goal with
    | |- context [Payment.pre_save now rnd ?q] => set (q0 := q) in *
    end.
    destruct (pre_save_fields now rnd q0)
      as (E1 & E2 & E3 & E4 & _ & _ & E7 & E8 & _).
    split; [by rewrite validate_pre_save |].
    split; [by rewrite E4 |]. split; [by rewrite E8 |].
    split; [by rewrite E7 |]. split; [by rewrite E1 |].
    split; [by rewrite E2 |]. split; [by rewrite E3 |].
    apply pre_save_receipt. discriminate. }
  cbv zeta. unfold create_payment.
  destruct (PaymentReq.leaseId req) as [lid |] eqn:Hlid.
  - destruct (leases db !! lid) as [lease |] eqn:Hl.
    + destruct (Hstore (Some lid) (Lease.tenant lease) (Lease.property lease))
        as (H400 & Hne & H201).
      split; [| split; [exact Hne |]].
      * split; [done |]. intros [(l' & E & Hn) | [E _]]; [| discriminate].
        injection E as <-. congruence.
      * intros Hc. destruct (H201 Hc)
          as (p & E1 & E2 & E3 & E4 & E5 & E6 & E7 & E8 & E9 & E10).
        exists p. do 7 (split; [assumption |]).
        split; [| split; [discriminate | exact E10]].
        intros l' lease' [= <-] Hl'. split; congruence.
    + cbn. split; [| split; [reflexivity | discriminate]].
      split; [| reflexivity]. intros _. left. eauto.
  - destruct (PaymentReq.propertyId req) as [pid |] eqn:Hpid.
    + destruct (PaymentReq.tenantId req) as [tid |] eqn:Htid.
      * destruct (Hstore None tid pid) as (H400 & Hne & H201).
        split; [| split; [exact Hne |]].
        -- split; [done |]. intros [(l' & E & _) | [_ [E | E]]]; discriminate.
        -- intros Hc. destruct (H201 Hc)
             as (p & E1 & E2 & E3 & E4 & E5 & E6 & E7 & E8 & E9 & E10).
           exists p. do 7 (split; [assumption |]).
           split; [discriminate |]. split; [| exact E10].
           intros _. split; congruence.
      * cbn. split; [| split; [reflexivity | discriminate]].
        split; [| reflexivity]. intros _. right. auto.
    + cbn. split; [| split; [reflexivity | discriminate]].
      split; [| reflexivity]. intros _. right. auto.
Qed.

Lemma create_payment_outcomes_witness :
  let req :=
    PaymentReq.mk (Some 0%nat) (Some 7%nat) (Some 9%nat) (Some 250)
      (Some "utility") (Some "online") (JsDate.utc 2024 1 1) None
      (Some "completed") in
  exists p,
    payments (fst (create_payment Sample.jan10 "K3J9X0QPA" req (Sample.db_fee 50)))
      !! 1%nat = Some p
    /\ Payment.tenant p = 1%nat /\ Payment.property p = 1%nat.
Proof.
  intros req.
  destruct (create_payment_outcomes Sample.jan10 "K3J9X0QPA" req
              (Sample.db_fee 50)) as (_ & _ & H).
  destruct H as (p & Hdb & _ & _ & _ & _ & _ & _ & Hlease & _).
  - vm_compute; reflexivity.
  - exists p. split.
    + rewrite Hdb. cbn [payments set_payments].
      replace (new_id (payments (Sample.db_fee 50))) with 1%nat
        by (vm_compute; reflexivity).
      apply lookup_insert_eq.
    + apply (Hlease 0%nat (Sample.lease_fee 50)); vm_compute; reflexivity.
Defined.

Ltac early_exit :=
  cbn; repeat split; auto;
  try (intros; discriminate); try (intros _; by left).

(** X8. The pay route writes payments only: properties, users and leases
    are untouched, and so is every payment other than the one settled.
    It answers 404, 500 or 200; after 404 the database is unchanged;
    after 500 either the database is unchanged or the payment has been
    stored as settled with a positive late fee while the late-fee
    document is missing. *)
Theorem pay_frame now rnd1 rnd2 id req db :
  let res := pay now rnd1 rnd2 id req db in
  properties (fst res) = properties db
  /\ users (fst res) = users db
  /\ leases (fst res) = leases db
  /\ (forall k q, k <> id -> payments db !! k = Some q ->
        payments (fst res) !! k = Some q)
  /\ (code (snd res) = 404 \/ code (snd res) = 500 \/ code (snd res) = 200)
  /\ (code (snd res) = 404 -> fst res = db)
  /\ (code (snd res) = 500 ->
      fst res = db
      \/ exists payment pm,
           payments db !! id = Some payment
           /\ PayReq.paymentMethod req = Some pm
           /\ 0 < late_fee now payment db
           /\ fst res
              = set_payments
                  (<[id := Payment.pre_save now rnd1
                             (settled now pm req (late_fee now payment db)
                                payment)]> (payments db)) db).
Proof.
  cbv zeta. remember (pay now rnd1 rnd2 id req db) as res eqn:Hres.
  unfold pay in Hres.
  destruct (payments db !! id) as [payment |] eqn:Hl;
    [| subst res; early_exit].
  destruct (PayReq.paymentMethod req) as [pm |];
    [| subst res; early_exit].
  unfold save_payment in Hres.
  destruct (Payment.validate (settled _ _ _ _ _));
    [| subst res; early_exit].
  destruct (unique_ok id _ (payments db));
    [| subst res; early_exit].
  cbv zeta in Hres.
  set (p' := Payment.pre_save now rnd1 _) in Hres.
  set (m1 := <[id := p']> (payments db)) in Hres.
  assert (forall k q, k <> id -> payments db !! k = Some q ->
            m1 !! k = Some q) as Hm1.
  { intros k q Hk Hq. unfold m1. by rewrite lookup_insert_ne. }
  assert (0 < late_fee now payment db ->
          exists payment0 pm0,
            Some payment = Some payment0 /\ Some pm = Some pm0
            /\ 0 < late_fee now payment0 db
            /\ set_payments m1 db
               = set_payments
                   (<[id := Payment.pre_save now rnd1
                              (settled now pm0 req (late_fee now payment0 db)
                                 payment0)]> (payments db)) db) as Hpartial.
  { intros Hpos. exists payment, pm. repeat split; auto. }
  destruct (0 <? late_fee now payment db) eqn:Hfee.
  - destruct (Payment.validate (lateFeePayment _ _ _ _ _)).
    + destruct (unique_ok (new_id m1) _ m1).
      * subst res.
        cbn [fst snd code properties users leases payments set_payments].
        do 3 (split; [reflexivity |]). split.
        { intros k q Hk Hq. rewrite lookup_insert_ne; [by apply Hm1 |].
          intros <-. pose proof (new_id_fresh m1) as Hf.
          rewrite (Hm1 _ q Hk Hq) in Hf. discriminate. }
        split; [auto |]. split; intros; discriminate.
      * subst res.
        cbn [fst snd code respond properties users leases payments
             set_payments].
        do 3 (split; [reflexivity |]). split; [exact Hm1 |].
        split; [auto |]. split; [intros; discriminate |].
        intros _. right. apply Hpartial. lia.
    + subst res.
      cbn [fst snd code respond properties users leases payments
           set_payments].
      do 3 (split; [reflexivity |]). split; [exact Hm1 |].
      split; [auto |]. split; [intros; discriminate |].
      intros _. right. apply Hpartial. lia.
  - subst res.
    cbn [fst snd code properties users leases payments set_payments].
    do 3 (split; [reflexivity |]). split; [exact Hm1 |].
    split; [auto |]. split; intros; discriminate.
Qed.

Lemma pay_frame_witness :
  let db1 :=
    fst (pay Sample.jan10 "K3J9X0QPA" "Z81MMC04T" 0
           (Sample.pay_req "TXN-1" None) (Sample.db_fee 50)) in
  exists q,
    payments (fst (pay Sample.jan10 "5TT0AB2LM" "Q0PW77XYE" 0
                     (Sample.pay_req "TXN-1" None) db1)) !! 1%nat = Some q
    /\ payments db1 !! 1%nat = Some q.
Proof.
  intros db1.
  destruct (pay_frame Sample.jan10 "5TT0AB2LM" "Q0PW77XYE" 0%nat
              (Sample.pay_req "TXN-1" None) db1) as (_ & _ & _ & H & _).
  eexists. split; [apply H; [discriminate |] |]; vm_compute; reflexivity.
Defined.

(** ** Virtuals and list routes *)

Lemma ceil_div_bounds a b :
  0 < b -> (JsDate.ceil_div a b - 1) * b < a <= JsDate.ceil_div a b * b.
Proof.
  intros Hb. unfold JsDate.ceil_div.
  pose proof (Z.div_mod (- a) b ltac:(lia)) as Hdm.
  pose proof (Z.mod_pos_bound (- a) b Hb) as Hm. nia.
Qed.

(** X9. [daysOverdue] is 0 exactly when the payment is not overdue (not
    pending, or not yet past its due date); for an overdue payment it is
    the number of started days since the due date, at least 1. *)
Theorem daysOverdue_spec now p :
  (isOverdue now p = false -> daysOverdue now p = 0)
  /\ (isOverdue now p = true ->
      Payment.status p = "pending"
      /\ 1 <= daysOverdue now p
      /\ (daysOverdue now p - 1) * JsDate.msPerDay
         < now - Payment.dueDate p
         <= daysOverdue now p * JsDate.msPerDay).
Proof.
  unfold daysOverdue. split.
  - by intros ->.
  - intros H. rewrite H. cbn [negb]. unfold isOverdue in H.
    apply andb_true_iff in H as [Hs Hd]. apply String.eqb_eq in Hs.
    pose proof (ceil_div_bounds (now - Payment.dueDate p) JsDate.msPerDay
                  ltac:(reflexivity)) as Hb.
    split; [exact Hs |]. split; [| exact Hb].
    unfold JsDate.msPerDay in *. lia.
Qed.

Lemma daysOverdue_spec_witness :
  1 <= daysOverdue Sample.jan10 Sample.rent_january.
Proof.
  destruct (daysOverdue_spec Sample.jan10 Sample.rent_january) as [_ H].
  destruct H as (_ & H & _); [vm_compute; reflexivity | exact H].
Defined.

(** X10. For an overdue payment of a stored lease, the fee that the pay
    route charges at [now] is the lease's late fee when [daysOverdue] at
    [now] exceeds the grace period, and 0 otherwise; a payment that is
    not yet past its due date is charged nothing; and for a payment that
    is not pending [daysOverdue] is 0, although the route charges it like
    any other. *)
Theorem late_fee_matches_daysOverdue now p db :
  (forall lease,
      isOverdue now p = true ->
      findById (leases db) (Payment.lease p) = Some lease ->
      late_fee now p db
      = if Lease.lateFee_gracePeriod lease <? daysOverdue now p
        then Lease.lateFee_amount lease else 0)
  /\ (now <= Payment.dueDate p ->
      late_fee now p db = 0 /\ daysOverdue now p = 0)
  /\ (Payment.status p <> "pending" ->
      daysOverdue now p = 0
      /\ late_fee now p db = late_fee now (with_status "pending" p) db).
Proof.
  split; [| split].
  - intros lease Ho Hl. unfold late_fee, daysOverdue. rewrite Ho, Hl.
    unfold isOverdue in Ho. apply andb_true_iff in Ho as [_ ->].
    reflexivity.
  - intros Hd. unfold late_fee, daysOverdue, isOverdue.
    replace (Payment.dueDate p <? now) with false by lia.
    by rewrite andb_false_r.
  - intros Hs. split; [| reflexivity].
    unfold daysOverdue, isOverdue.
    apply String.eqb_neq in Hs. by rewrite Hs.
Qed.

Lemma late_fee_matches_daysOverdue_witness :
  late_fee Sample.jan10 Sample.rent_january (Sample.db_fee 50) = 50.
Proof.
  destruct (late_fee_matches_daysOverdue Sample.jan10 Sample.rent_january
              (Sample.db_fee 50)) as [H _].
  rewrite (H (Sample.lease_fee 50)); vm_compute; reflexivity.
Defined.

Lemma isOverdue_true now p :
  isOverdue now p = true
  <-> Payment.status p = "pending" /\ Payment.dueDate p < now.
Proof.
  unfold isOverdue. rewrite andb_true_iff, String.eqb_eq, Z.ltb_lt. tauto.
Qed.

#[local] Instance by_dueDate_total : Total by_dueDate.
Proof. intros a b. unfold by_dueDate. lia. Qed.

(** X11. The overdue list holds exactly the stored payments that are
    overdue at [now], each once, in the order of their due dates. *)
Theorem overdue_list_spec now db :
  (forall k p,
      (k, p) ∈ overdue_list now db
      <-> payments db !! k = Some p /\ isOverdue now p = true)
  /\ NoDup (overdue_list now db)
  /\ Sorted by_dueDate (overdue_list now db).
Proof.
  unfold overdue_list. split; [| split].
  - intros k p. rewrite merge_sort_Permutation, elem_of_map_to_list.
    unfold overdue_query. rewrite map_lookup_filter_Some, isOverdue_true.
    reflexivity.
  - rewrite merge_sort_Permutation. apply NoDup_map_to_list.
  - apply Sorted_merge_sort. apply _.
Qed.

(** X12. [daysRemaining] is the number of started days up to the end
    date: it is positive exactly while the end date is ahead, an expired
    lease never has days remaining, and a lease expired for less than a
    day reports 0. *)
Theorem daysRemaining_spec today l :
  (daysRemaining today l - 1) * JsDate.msPerDay
  < Lease.endDate l - today
  <= daysRemaining today l * JsDate.msPerDay
  /\ (0 < daysRemaining today l <-> today < Lease.endDate l)
  /\ (isExpired today l = true -> daysRemaining today l <= 0)
  /\ (Lease.endDate l < today < Lease.endDate l + JsDate.msPerDay ->
      isExpired today l = true /\ daysRemaining today l = 0).
Proof.
  pose proof (ceil_div_bounds (Lease.endDate l - today) JsDate.msPerDay
                ltac:(reflexivity)) as Hb.
  unfold isExpired. fold (daysRemaining today l) in Hb.
  unfold JsDate.msPerDay in *.
  split; [exact Hb |]. split; [lia |]. split; [lia |]. lia.
Qed.

(** [setDate(getDate() + n)] in any zone: the local time moved by [n]
    days of 24 hours, converted back. *)
Lemma setDate_days z t n :
  Zoned.setDate z t (Zoned.getDate z t + n)
  = Zone.UTC z (Zone.LocalTime z t + n * JsDate.msPerDay).
Proof.
  unfold Zoned.setDate, Zoned.getDate. rewrite setDate_shift.
  do 2 f_equal. lia.
Qed.

(** X13. The renewal notice is due, as long as none was sent, from the
    notice date on: the instant at which the local time is the local
    time of the end date less 60 days of 24 hours, the day arithmetic of
    [setDate (getDate () - 60)] carrying through months and years.  On a
    server whose zone has a constant offset from UTC that is exactly 60
    days of 24 hours before the end date. *)
Theorem isRenewalNoticeDue_spec z today sent l :
  (isRenewalNoticeDue z today sent l = true
   <-> Zone.UTC z (Zone.LocalTime z (Lease.endDate l) - 60 * JsDate.msPerDay)
       <= today
       /\ sent = false)
  /\ (forall c,
        Zone.constant c z ->
        (isRenewalNoticeDue z today sent l = true
         <-> Lease.endDate l - 60 * JsDate.msPerDay <= today /\ sent = false)).
Proof.
  assert (isRenewalNoticeDue z today sent l = true
          <-> Zone.UTC z (Zone.LocalTime z (Lease.endDate l)
                          - 60 * JsDate.msPerDay) <= today
              /\ sent = false) as Hspec.
  { unfold isRenewalNoticeDue.
    replace (Zoned.getDate z (Lease.endDate l) - 60)
      with (Zoned.getDate z (Lease.endDate l) + - 60) by lia.
    rewrite andb_true_iff, negb_true_iff, Z.leb_le, setDate_days.
    by replace (- 60 * JsDate.msPerDay) with (- (60 * JsDate.msPerDay)) by lia. }
  split; [exact Hspec |].
  intros c Hz. rewrite Hspec, (UTC_const z c Hz), (LocalTime_const z c Hz).
  split; intros [H1 H2]; (split; [lia | exact H2]).
Qed.

Lemma isRenewalNoticeDue_spec_witness :
  isRenewalNoticeDue est (JsDate.utc 2024 9 15) false (Sample.lease_fee 50)
  = true.
Proof.
  destruct (isRenewalNoticeDue_spec est (JsDate.utc 2024 9 15) false
              (Sample.lease_fee 50)) as [_ H].
  destruct (H (-18000000) (constant_fixed _)) as [_ Hdue].
  apply Hdue. split; [vm_compute; discriminate | reflexivity].
Defined.

(** X14. The expiring-soon list holds exactly the stored leases that are
    [active] and end between [now] and the instant at which the local
    time is the local time of [now] plus [days] days of 24 hours.  On a
    server whose zone has a constant offset from UTC that instant is
    [days] days of 24 hours after [now], and with a negative [days] the
    list is empty. *)
Theorem expiring_soon_spec z now days db :
  (forall k l,
      expiring_soon z now days db !! k = Some l
      <-> leases db !! k = Some l
          /\ Lease.status l = "active"
          /\ now <= Lease.endDate l
             <= Zone.UTC z (Zone.LocalTime z now + days * JsDate.msPerDay))
  /\ (forall c,
        Zone.constant c z ->
        (forall k l,
            expiring_soon z now days db !! k = Some l
            <-> leases db !! k = Some l
                /\ Lease.status l = "active"
                /\ now <= Lease.endDate l <= now + days * JsDate.msPerDay)
        /\ (days < 0 -> expiring_soon z now days db = ∅)).
Proof.
  assert (forall k l,
             expiring_soon z now days db !! k = Some l
             <-> leases db !! k = Some l
                 /\ Lease.status l = "active"
                 /\ now <= Lease.endDate l
                    <= Zone.UTC z (Zone.LocalTime z now
                                   + days * JsDate.msPerDay))
    as Hspec.
  { intros k l. unfold expiring_soon. cbv zeta.
    rewrite map_lookup_filter_Some, setDate_days. cbn [snd]. tauto. }
  split; [exact Hspec |].
  intros c Hz.
  assert (Zone.UTC z (Zone.LocalTime z now + days * JsDate.msPerDay)
          = now + days * JsDate.msPerDay) as Hfuture.
  { rewrite (UTC_const z c Hz), (LocalTime_const z c Hz). lia. }
  rewrite Hfuture in Hspec.
  split; [exact Hspec |].
  intros Hneg. apply map_empty. intros k.
  destruct (expiring_soon z now days db !! k) as [l |] eqn:E; [| reflexivity].
  apply Hspec in E as (_ & _ & H). unfold JsDate.msPerDay in H. lia.
Qed.

Lemma expiring_soon_spec_witness :
  expiring_soon est (JsDate.utc 2024 9 1) (-1) (Sample.db_fee 50) = ∅.
Proof.
  destruct (expiring_soon_spec est (JsDate.utc 2024 9 1) (-1)
              (Sample.db_fee 50)) as [_ H].
  destruct (H (-18000000) (constant_fixed _)) as [_ He].
  apply He. lia.
Defined.

(** ** The month window of the statistics *)

Section MonthWindow.
Import JsDate.

Lemma MakeDay_date y m d : MakeDay y m d = MakeDay y m 1 + d - 1.
Proof. unfold MakeDay. lia. Qed.

Lemma month_start_eq now :
  month_start now
  = MakeDate (MakeDay (YearFromTime now) (MonthFromTime now) 1) 0.
Proof.
  unfold month_start, setDate.
  by rewrite Day_MakeDate by apply TimeWithinDay_range.
Qed.

Lemma first_of_month_ok y m :
  0 <= m <= 11 -> 1 <= 1 <= DaysInMonth (InLeapYear y) m.
Proof. intros Hm. pose proof (days_in_month_ge (InLeapYear y) m Hm). lia. Qed.

Lemma month_start_civil now :
  civil (month_start now) = (YearFromTime now, MonthFromTime now, 1)
  /\ TimeWithinDay (month_start now) = 0.
Proof.
  rewrite month_start_eq.
  apply civil_MakeDate; [apply MonthFromTime_range | | unfold msPerDay; lia].
  apply first_of_month_ok, MonthFromTime_range.
Qed.

Lemma month_end_eq now :
  month_end now
  = MakeDate
      (MakeDay (YearFromTime now) (MonthFromTime now) 1
       + DaysInMonth (InLeapYear (YearFromTime now)) (MonthFromTime now)) 0.
Proof.
  unfold month_end, setMonth, getMonth.
  destruct (month_start_civil now) as [Hc Ht].
  unfold civil in Hc. injection Hc as -> -> ->. rewrite Ht.
  by rewrite (MakeDay_next_month _ _ _ (MonthFromTime_range now)).
Qed.

(** A local time value lies in the window exactly when it has the year
    and the month of [now]. *)
Lemma month_window now t :
  month_start now <= t < month_end now
  <-> YearFromTime t = YearFromTime now /\ MonthFromTime t = MonthFromTime now.
Proof.
  rewrite month_start_eq, month_end_eq.
  set (y := YearFromTime now). set (m := MonthFromTime now).
  pose proof (MonthFromTime_range now) as Hm. fold m in Hm.
  pose proof (days_in_month_ge (InLeapYear y) m Hm) as Hdim.
  pose proof (time_split t) as Ht. pose proof (TimeWithinDay_range t) as Htod.
  split.
  - intros Hw.
    assert (MakeDay y m 1 <= Day t
            < MakeDay y m 1 + DaysInMonth (InLeapYear y) m) as Hday.
    { unfold MakeDate, msPerDay in *. lia. }
    destruct (civil_MakeDate y m (Day t - MakeDay y m 1 + 1) (TimeWithinDay t))
      as [Hc _]; [done | lia | done |].
    rewrite (MakeDay_date y m (Day t - MakeDay y m 1 + 1)) in Hc.
    replace (MakeDay y m 1 + (Day t - MakeDay y m 1 + 1) - 1) with (Day t)
      in Hc by lia.
    rewrite <- Ht in Hc. unfold civil in Hc. by injection Hc as -> -> _.
  - intros [Hy Hmo].
    pose proof (MakeDay_fields t) as Hf. pose proof (DateFromTime_range t) as Hr.
    rewrite Hy, Hmo in Hf, Hr. fold y m in Hf, Hr.
    rewrite MakeDay_date in Hf.
    unfold MakeDate, msPerDay in *. lia.
Qed.
End MonthWindow.

(** In a zone with a constant offset the window of the statistics is
    the month of the local time, moved back by the offset. *)
Lemma month_window_const z c now :
  Zone.constant c z ->
  currentMonth z now = month_start (now + c) - c
  /\ nextMonth z now = month_end (now + c) - c.
Proof.
  intros Hz.
  assert (currentMonth z now = month_start (now + c) - c) as Hcm.
  { unfold currentMonth, Zoned.setHours0, month_start.
    rewrite (UTC_const z c Hz), (LocalTime_const z c Hz),
      (setDate_const z c Hz).
    by replace (JsDate.setDate (now + c) 1 - c + c)
      with (JsDate.setDate (now + c) 1) by lia. }
  split; [exact Hcm |].
  unfold nextMonth. rewrite (setMonth_const z c Hz), Hcm. unfold month_end.
  by replace (month_start (now + c) - c + c) with (month_start (now + c))
    by lia.
Qed.

(** X15. On a server whose zone has a constant offset from UTC the
    monthly statistics cover the calendar month of [now] in local time:
    the window starts at local midnight of the first day of that month,
    [now] is in it, and a payment is matched exactly when the local time
    of its due date has the year and the month of the local time of
    [now]. *)
Theorem stats_month_window z c now db :
  Zone.constant c z ->
  JsDate.civil (Zone.LocalTime z (currentMonth z now))
  = (JsDate.YearFromTime (Zone.LocalTime z now),
     JsDate.MonthFromTime (Zone.LocalTime z now), 1)
  /\ JsDate.TimeWithinDay (Zone.LocalTime z (currentMonth z now)) = 0
  /\ currentMonth z now <= now < nextMonth z now
  /\ forall k p,
       due_this_month z now db !! k = Some p
       <-> payments db !! k = Some p
           /\ JsDate.YearFromTime (Zone.LocalTime z (Payment.dueDate p))
              = JsDate.YearFromTime (Zone.LocalTime z now)
           /\ JsDate.MonthFromTime (Zone.LocalTime z (Payment.dueDate p))
              = JsDate.MonthFromTime (Zone.LocalTime z now).
Proof.
  intros Hz. destruct (month_window_const z c now Hz) as [Hcm Hnm].
  destruct (month_start_civil (now + c)) as [Hc Ht].
  rewrite !(LocalTime_const z c Hz), Hcm.
  replace (month_start (now + c) - c + c) with (month_start (now + c)) by lia.
  split; [exact Hc |]. split; [exact Ht |]. split.
  - pose proof (proj2 (month_window (now + c) (now + c)) (conj eq_refl eq_refl)).
    lia.
  - intros k p. unfold due_this_month.
    rewrite map_lookup_filter_Some. cbn [snd].
    rewrite Hnm, Hcm, (LocalTime_const z c Hz).
    rewrite <- (month_window (now + c) (Payment.dueDate p + c)).
    split; intros [H1 H2]; (split; [exact H1 | lia]).
Qed.

Lemma stats_month_window_witness :
  JsDate.civil (Zone.LocalTime est (currentMonth est Sample.jan10))
  = (JsDate.YearFromTime (Zone.LocalTime est Sample.jan10),
     JsDate.MonthFromTime (Zone.LocalTime est Sample.jan10), 1)
  /\ currentMonth est Sample.jan10 <= Sample.jan10
     < nextMonth est Sample.jan10.
Proof.
  destruct (stats_month_window est (-18000000) Sample.jan10 (Sample.db_fee 50)
              (constant_fixed _)) as (H1 & _ & H2 & _).
  split; [exact H1 | exact H2].
Defined.

(** ** Reading leases and payments *)

#[local] Instance by_dueDate_desc_total : Total by_dueDate_desc.
Proof. intros a b. unfold by_dueDate_desc. lia. Qed.

#[local] Instance by_dueDate_desc_trans : Transitive by_dueDate_desc.
Proof. intros a b c. unfold by_dueDate_desc. lia. Qed.

Lemma lease_history_spec id db :
  (length (lease_history id db) <= 12)%nat
  /\ NoDup (lease_history id db)
  /\ StronglySorted by_dueDate_desc (lease_history id db)
  /\ (forall k p,
        (k, p) ∈ lease_history id db ->
        payments db !! k = Some p /\ Payment.lease p = Some id)
  /\ (forall k p,
        payments db !! k = Some p -> Payment.lease p = Some id ->
        (k, p) ∉ lease_history id db ->
        length (lease_history id db) = 12%nat
        /\ forall k' p',
             (k', p') ∈ lease_history id db ->
             Payment.dueDate p <= Payment.dueDate p').
Proof.
  unfold lease_history.
  set (m := filter (fun kv => Payment.lease (snd kv) = Some id) (payments db)).
  set (L := merge_sort by_dueDate_desc (map_to_list m)).
  assert (L ≡ₚ map_to_list m) as Hperm by apply merge_sort_Permutation.
  assert (StronglySorted by_dueDate_desc L) as Hsorted
      by (apply StronglySorted_merge_sort; apply _).
  assert (NoDup L) as Hnd by (rewrite Hperm; apply NoDup_map_to_list).
  assert (forall k p, (k, p) ∈ L
                      <-> payments db !! k = Some p /\ Payment.lease p = Some id)
    as Hin.
  { intros k p. rewrite Hperm, elem_of_map_to_list. unfold m.
    by rewrite map_lookup_filter_Some. }
  rewrite <- (take_drop 12 L) in Hsorted, Hnd.
  split; [rewrite length_take; lia |].
  split; [by apply NoDup_app in Hnd as (? & _) |].
  split; [by apply StronglySorted_app_1_l in Hsorted |].
  split.
  - intros k p Hk. apply Hin. by apply (subseteq_take 12 L).
  - intros k p Hp Hl Hnot.
    assert ((k, p) ∈ drop 12 L) as Hdrop.
    { assert ((k, p) ∈ (take 12 L ++ drop 12 L)%list) as H
          by (rewrite take_drop; by apply Hin).
      apply elem_of_app in H as [H | H]; [contradiction | exact H]. }
    split.
    + rewrite length_take.
      destruct (decide (12 <= length L)%nat) as [Hge | Hlt]; [lia |].
      rewrite drop_ge in Hdrop by lia. by apply elem_of_nil in Hdrop.
    + intros k' p' Hk'.
      apply (StronglySorted_app_1_elem_of _ _ _ _ _ Hsorted Hk' Hdrop).
Qed.

(** X16. Reading a lease answers 404 exactly when it does not exist; an
    answer of 200 to a user of role [tenant] is about that tenant's own
    lease.  The payment history has at most 12 payments, all of the
    lease, each once, newest due date first, and a payment of the lease
    that is left out is due no later than every payment listed. *)
Theorem get_lease_spec uid urole id db :
  let res := get_lease uid urole id db in
  (fst res = 404 <-> leases db !! id = None)
  /\ (fst res = 200 ->
      exists lease,
        leases db !! id = Some lease
        /\ (urole = "tenant" -> Lease.tenant lease = uid)
        /\ snd res = lease_history id db)
  /\ (fst res <> 200 -> snd res = [])
  /\ (length (snd res) <= 12)%nat
  /\ NoDup (snd res)
  /\ StronglySorted by_dueDate_desc (snd res)
  /\ (forall k p,
        (k, p) ∈ snd res ->
        payments db !! k = Some p /\ Payment.lease p = Some id)
  /\ (fst res = 200 ->
      forall k p,
        payments db !! k = Some p -> Payment.lease p = Some id ->
        (k, p) ∉ snd res ->
        length (snd res) = 12%nat
        /\ forall k' p',
             (k', p') ∈ snd res -> Payment.dueDate p <= Payment.dueDate p').
Proof.
  destruct (lease_history_spec id db) as (Hlen & Hnd & Hs & Hin & Hout).
  assert (forall c : Z, c <> 200 ->
            (length ([] : list (nat * Payment.t)) <= 12)%nat
            /\ NoDup ([] : list (nat * Payment.t))
            /\ StronglySorted by_dueDate_desc []
            /\ (forall k p, (k, p) ∈ ([] : list (nat * Payment.t)) ->
                  payments db !! k = Some p /\ Payment.lease p = Some id)
            /\ (c = 200 ->
                forall k p,
                  payments db !! k = Some p -> Payment.lease p = Some id ->
                  (k, p) ∉ ([] : list (nat * Payment.t)) ->
                  length ([] : list (nat * Payment.t)) = 12%nat
                  /\ forall k' p',
                       (k', p') ∈ ([] : list (nat * Payment.t)) ->
                       Payment.dueDate p <= Payment.dueDate p')) as Hnil.
  { intros c Hc. split; [cbn; lia |]. split; [constructor |].
    split; [constructor |]. split; [| done].
    intros k p H. by apply elem_of_nil in H. }
  cbv zeta. unfold get_lease.
  destruct (leases db !! id) as [lease |] eqn:Hl.
  - destruct (String.eqb urole "tenant") eqn:Hrole.
    + destruct (users db !! Lease.tenant lease).
      * destruct (Nat.eqb (Lease.tenant lease) uid) eqn:Hu; cbn [negb fst snd].
        -- apply Nat.eqb_eq in Hu.
           split; [split; discriminate |].
           split; [intros _; exists lease; auto |].
           split; [done |]. do 4 (split; [assumption |]). intros _. exact Hout.
        -- split; [split; discriminate |]. split; [discriminate |].
           split; [done |]. by apply Hnil.
      * cbn [fst snd]. split; [split; discriminate |].
        split; [discriminate |]. split; [done |]. by apply Hnil.
    + cbn [fst snd]. apply String.eqb_neq in Hrole.
      split; [split; discriminate |].
      split; [intros _; exists lease; split; [done |]; split; [done | done] |].
      split; [done |]. do 4 (split; [assumption |]). intros _. exact Hout.
  - cbn [fst snd]. split; [done |]. split; [discriminate |].
    split; [done |]. by apply Hnil.
Qed.

(** X17. Reading the payments of a tenant answers 403 exactly to a user
    of role [tenant] asking for another tenant, and then lists nothing;
    otherwise it answers 200 with exactly the stored payments of that
    tenant, each once, newest due date first.  A user of role [tenant]
    is never shown a payment of another tenant. *)
Theorem tenant_payments_spec uid urole tenantId db :
  let res := tenant_payments uid urole tenantId db in
  (fst res = 403 <-> urole = "tenant" /\ uid <> tenantId)
  /\ (fst res = 403 \/ fst res = 200)
  /\ (fst res = 403 -> snd res = [])
  /\ (fst res = 200 ->
      forall k p,
        (k, p) ∈ snd res
        <-> payments db !! k = Some p /\ Payment.tenant p = tenantId)
  /\ NoDup (snd res)
  /\ Sorted by_dueDate_desc (snd res)
  /\ (urole = "tenant" ->
      forall k p, (k, p) ∈ snd res -> Payment.tenant p = uid).
Proof.
  cbv zeta. unfold tenant_payments.
  set (L := merge_sort by_dueDate_desc _).
  assert (forall k p,
             (k, p) ∈ L
             <-> payments db !! k = Some p /\ Payment.tenant p = tenantId)
    as Hin.
  { intros k p. unfold L.
    rewrite merge_sort_Permutation, elem_of_map_to_list.
    by rewrite map_lookup_filter_Some. }
  assert (NoDup L) as Hnd
      by (unfold L; rewrite merge_sort_Permutation; apply NoDup_map_to_list).
  assert (Sorted by_dueDate_desc L) as Hs
      by (apply Sorted_merge_sort; apply _).
  destruct (String.eqb urole "tenant") eqn:Hrole;
    destruct (Nat.eqb uid tenantId) eqn:Hu; cbn [andb negb fst snd].
  - apply String.eqb_eq in Hrole. apply Nat.eqb_eq in Hu.
    split; [split; [discriminate | intros [_ H]; contradiction] |].
    split; [by right |]. split; [discriminate |]. split; [done |].
    split; [done |]. split; [done |].
    intros _ k p Hk. apply Hin in Hk as [_ Hk]. congruence.
  - apply String.eqb_eq in Hrole. apply Nat.eqb_neq in Hu.
    split; [done |]. split; [by left |]. split; [done |].
    split; [discriminate |]. split; [constructor |]. split; [constructor |].
    intros _ k p Hk. by apply elem_of_nil in Hk.
  - apply String.eqb_neq in Hrole.
    split; [split; [discriminate | intros [H _]; contradiction] |].
    split; [by right |]. split; [discriminate |]. split; [done |].
    split; [done |]. split; [done |]. done.
  - apply String.eqb_neq in Hrole.
    split; [split; [discriminate | intros [H _]; contradiction] |].
    split; [by right |]. split; [discriminate |]. split; [done |].
    split; [done |]. split; [done |]. done.
Qed.

(** X18. Terminating and deleting a lease keep the non-overlap property
    of the stored leases; activation is the request that can break
    it. *)
Theorem no_overlap_kept_by_removal id db :
  no_overlap (leases db) ->
  no_overlap (leases (fst (terminate id db)))
  /\ no_overlap (leases (fst (delete_lease id db))).
Proof.
  intros Hno. split.
  - unfold terminate. destruct (leases db !! id) as [lease |] eqn:Hl;
      [| exact Hno].
    destruct (negb _); [exact Hno |]. cbn [fst leases set_leases set_users
      set_properties].
    intros i j a b Hij Hi Hj Hprop Ha Hb.
    destruct (decide (i = id)) as [-> | Hni].
    + rewrite lookup_insert_eq in Hi. injection Hi as <-.
      destruct Ha as [Ha | Ha]; discriminate Ha.
    + destruct (decide (j = id)) as [-> | Hnj].
      * rewrite lookup_insert_eq in Hj. injection Hj as <-.
        destruct Hb as [Hb | Hb]; discriminate Hb.
      * rewrite lookup_insert_ne in Hi by done.
        rewrite lookup_insert_ne in Hj by done.
        by apply (Hno i j a b).
  - unfold delete_lease. destruct (leases db !! id) as [lease |] eqn:Hl;
      [| exact Hno].
    cbn [fst leases set_leases set_users set_properties set_payments].
    intros i j a b Hij Hi Hj.
    apply lookup_delete_Some in Hi as [_ Hi].
    apply lookup_delete_Some in Hj as [_ Hj].
    by apply (Hno i j a b).
Qed.

Lemma no_overlap_kept_by_removal_witness :
  no_overlap
    (leases (fst (terminate 0 (fst (create_lease Sample.req_example Sample.db0))))).
Proof.
  apply (no_overlap_kept_by_removal 0%nat
           (fst (create_lease Sample.req_example Sample.db0))).
  destruct (create_lease_leases Sample.req_example Sample.db0)
    as [-> | (pid & tid & property & _ & Hov & _ & ->)].
  - exact no_overlap_empty.
  - apply no_overlap_insert; [exact no_overlap_empty | exact Hov].
Defined.
